(** * PBKDF2 of lib/x509/pkcs5.c ([_gnutls_pkcs5_pbkdf2])

    A shallow embedding of the one function of [src/lib/x509/pkcs5.c] and
    the properties its specification states about it.

    Conventions of the embedding.
    - [unsigned int] and [int] are 32 bits wide.  A value of either type is
      a [Z]; every operation that can leave the range is followed by its
      wrap-around, [uint] for unsigned and [sint] for signed arithmetic.
      ISO C leaves the overflow of the signed counter [i] undefined; the
      model takes the two's-complement wrap of the usual targets.
    - A byte ([char], [unsigned char]) is the [Z] of its bit pattern,
      [0..255]; a buffer is a [list Z].
    - libgcrypt and the allocator behind [gnutls_alloca] are not part of the
      file: they are the fields of [externals], acting on a state [world].
    - The two loops whose bound is a 32-bit value compared with [<=] can run
      forever (their counter wraps), so they take fuel and the function
      yields an [outcome]: [Returned] with what it leaves behind, or
      [OutOfFuel] with the caller's memory and the copies made so far when
      the fuel does not suffice. *)

From Stdlib Require Import ZArith Lia Bool.
From stdpp Require Import base list.

Local Open Scope Z_scope.

(** ** Machine integers *)

Definition uint (x : Z) : Z := x mod 2 ^ 32.
Definition sint (x : Z) : Z := (x + 2 ^ 31) mod 2 ^ 32 - 2 ^ 31.

(** ** Buffers *)

(** The [n] bytes found at pointer [p]; the model of a pointer is the list
    of the bytes behind it, and bytes past the end of that list read as 0. *)
Definition bytes_at (p : list Z) (n : nat) : list Z :=
  take n (p ++ replicate n 0).

(** [memset (buf, v, n)] *)
Definition memset (buf : list Z) (v : Z) (n : nat) : list Z :=
  replicate n v ++ drop n buf.

(** [memcpy (dst + off, src, n)]; a copy that would run past the end of
    [dst], which C leaves undefined, lengthens the list. *)
Definition memcpy (dst : list Z) (off : nat) (src : list Z) (n : nat) : list Z :=
  take off dst ++ bytes_at src n ++ drop (off + n) dst.

(** ** Return codes (the enumeration of pkcs5.h) *)

Inductive pkcs5_rc : Set :=
| PKCS5_OK
| PKCS5_INVALID_ITERATION_COUNT
| PKCS5_INVALID_DERIVED_KEY_LENGTH
| PKCS5_DERIVED_KEY_TOO_LONG
| PKCS5_INVALID_PRF.

Definition MAX_PRF_BLOCK_LEN : Z := 80.

(** ** The external collaborators

    [world] is the state of libgcrypt's digest context (and of whatever
    decides whether an allocation succeeds).  [gcry_md_open] and
    [gcry_md_setkey] return their error code, [0] for success;
    [gcry_md_read] returns the bytes behind the pointer it yields, [None]
    for [NULL]; [gnutls_alloca] tells whether the pointer is not [NULL], and
    neither it nor [gnutls_afree] changes the state. *)

Record externals : Type := {
  world : Type;
  gcry_md_get_algo_dlen : Z -> Z;
  gcry_md_open : world -> Z -> world * Z;
  gcry_md_reset : world -> world;
  gcry_md_setkey : world -> list Z -> world * Z;
  gcry_md_write : world -> list Z -> world;
  gcry_md_read : world -> Z -> world * option (list Z);
  gcry_md_close : world -> world;
  gnutls_alloca : world -> Z -> bool
}.

(** ** State of one call *)

(** The caller's memory: the [Plen] bytes at [P], the [Slen] bytes at [S]
    and the buffer at [DK], three disjoint regions. *)
Record memory : Type := {
  mem_P : list Z;
  mem_S : list Z;
  mem_DK : list Z
}.

Definition store_DK (m : memory) (off : nat) (src : list Z) (n : nat) : memory :=
  {| mem_P := mem_P m; mem_S := mem_S m; mem_DK := memcpy (mem_DK m) off src n |}.

(** Whether the handle [prf] has been opened and closed. *)
Inductive md_status : Set := md_unopened | md_open | md_closed.

Section Pbkdf2.

Variable E : externals.

(** The digest context and the local arrays [U] and [T]. *)
Record regs : Type := {
  r_world : world E;
  r_U : list Z;
  r_T : list Z
}.

(** What the function leaves behind when it returns: its return value, the
    handle, the collaborators' state, the caller's memory and, in order, the
    [memcpy]s made into [DK] as (offset, byte count). *)
Record result : Type := {
  rc : pkcs5_rc;
  handle : md_status;
  final_world : world E;
  mem : memory;
  written : list (Z * Z)
}.

Inductive outcome : Type :=
| Returned (res : result)
| OutOfFuel (m : memory) (log : list (Z * Z)).

Inductive iter_outcome : Type :=
| IterDone (st : regs)
| IterFail (w : world E)
| IterOutOfFuel.

(** [for (k = 0; (uint)k < hLen; k++) T[k] ^= U[k];]
    ([hLen <= 80] here, [k] does not wrap) *)
Definition xor_into (hLen : nat) (T U : list Z) : list Z :=
  fold_left (fun T k => <[k := Z.lxor (nth k T 0) (nth k U 0)]> T) (seq 0 hLen) T.

(** The four bytes stored at [tmp + Slen]. [0xff000000] is an [unsigned
    int] constant, so [i] is converted for the first; the other masks are
    [int]s. *)
Definition INT (i : Z) : list Z :=
  [ Z.shiftr (Z.land (uint i) 0xff000000) 24;
    Z.shiftr (Z.land i 0x00ff0000) 16;
    Z.shiftr (Z.land i 0x0000ff00) 8;
    Z.shiftr (Z.land i 0x000000ff) 0 ].

Section Loops.

Variables (PRF : Z) (P S : list Z) (c hLen l r : Z).

(** Body of the loop on [u]: [inr w] is [return PKCS5_INVALID_PRF]. *)
Definition iteration (i u : Z) (st : regs) : regs + world E :=
  let w := gcry_md_reset E (r_world st) in
  let '(w, rc) := gcry_md_setkey E w P in
  if negb (rc =? 0) then inr w
  else
    let fed :=
      if u =? 1 then
        let tmplen := Z.of_nat (length S) + 4 in
        if gnutls_alloca E w tmplen
        then Some (gcry_md_write E w (S ++ INT i))
        else None
      else Some (gcry_md_write E w (bytes_at (r_U st) (Z.to_nat hLen))) in
    match fed with
    | None => inr w
    | Some w =>
      match gcry_md_read E w PRF with
      | (w, None) => inr w
      | (w, Some p) =>
        let U := memcpy (r_U st) 0 p (Z.to_nat hLen) in
        let T := xor_into (Z.to_nat hLen) (r_T st) U in
        inl {| r_world := w; r_U := U; r_T := T |}
      end
    end.

(** [for (u = 1; u <= c; u++) ...], entered at [u]. *)
Fixpoint loop_u (fuel : nat) (i u : Z) (st : regs) : iter_outcome :=
  match fuel with
  | O => IterOutOfFuel
  | Datatypes.S fuel' =>
    if u <=? c then
      match iteration i u st with
      | inl st' => loop_u fuel' i (uint (u + 1)) st'
      | inr w => IterFail w
      end
    else IterDone st
  end.

(** [for (i = 1; (uint)i <= l; i++) ...], entered at [i]; [fuel_u] is the
    fuel of each run of the loop on [u]. *)
Fixpoint loop_i (fuel fuel_u : nat) (i : Z) (st : regs) (m : memory)
    (log : list (Z * Z)) : outcome :=
  match fuel with
  | O => OutOfFuel m log
  | Datatypes.S fuel' =>
    if uint i <=? l then
      let st0 := {| r_world := r_world st; r_U := r_U st;
                    r_T := memset (r_T st) 0 (Z.to_nat hLen) |} in
      match loop_u fuel_u i 1 st0 with
      | IterDone st' =>
        let off := uint (uint (sint (i - 1)) * hLen) in
        let n := if uint i =? l then r else hLen in
        loop_i fuel' fuel_u (sint (i + 1)) st'
          (store_DK m (Z.to_nat off) (r_T st') (Z.to_nat n))
          (log ++ [(off, n)])
      | IterFail w =>
        Returned {| rc := PKCS5_INVALID_PRF; handle := md_open;
                    final_world := w; mem := m; written := log |}
      | IterOutOfFuel => OutOfFuel m log
      end
    else
      Returned {| rc := PKCS5_OK; handle := md_closed;
                  final_world := gcry_md_close E (r_world st);
                  mem := m; written := log |}
  end.

End Loops.

(** [l = dkLen / hLen; if (dkLen % hLen) l++;] *)
Definition block_count (dkLen hLen : Z) : Z :=
  let l := dkLen / hLen in
  if negb (dkLen mod hLen =? 0) then uint (l + 1) else l.

(** [r = dkLen - (l - 1) * hLen;] *)
Definition last_len (dkLen hLen l : Z) : Z :=
  uint (dkLen - uint (uint (l - 1) * hLen)).

(** The function.  [w] is the collaborators' state at the call, [U0] and
    [T0] the indeterminate contents of the arrays [U] and [T], [m] the
    caller's memory; [Plen] and [Slen] are the lengths of [mem_P m] and
    [mem_S m], and [DK] points at [mem_DK m]. *)
Definition _gnutls_pkcs5_pbkdf2 (fuel : nat) (w : world E) (U0 T0 : list Z)
    (m : memory) (PRF c dkLen : Z) : outcome :=
  let stop code := Returned {| rc := code; handle := md_unopened;
                               final_world := w; mem := m; written := [] |} in
  let hLen := uint (gcry_md_get_algo_dlen E PRF) in
  if (hLen =? 0) || (hLen >? MAX_PRF_BLOCK_LEN) then stop PKCS5_INVALID_PRF
  else if c =? 0 then stop PKCS5_INVALID_ITERATION_COUNT
  else if dkLen =? 0 then stop PKCS5_INVALID_DERIVED_KEY_LENGTH
  else if dkLen >? 4294967295 then stop PKCS5_DERIVED_KEY_TOO_LONG
  else
    let l := block_count dkLen hLen in
    let r := last_len dkLen hLen l in
    let '(w1, err) := gcry_md_open E w PRF in
    if negb (err =? 0) then
      Returned {| rc := PKCS5_INVALID_PRF; handle := md_unopened;
                  final_world := w1; mem := m; written := [] |}
    else
      loop_i PRF (mem_P m) (mem_S m) c hLen l r fuel fuel 1
        {| r_world := w1; r_U := U0; r_T := T0 |} m [].

End Pbkdf2.

Arguments r_world {E} _.
Arguments r_U {E} _.
Arguments r_T {E} _.
Arguments Returned {E} res.
Arguments OutOfFuel {E} m log.
Arguments rc {E} _.
Arguments handle {E} _.
Arguments final_world {E} _.
Arguments mem {E} _.
Arguments written {E} _.

(** ** The loops without fuel

    What the two loops compute when their counters do not wrap: [n] rounds
    of the body, by recursion on [n].  [loop_u_run] and [loop_i_run] below
    relate them to [loop_u] and [loop_i]. *)

Section Pure.

Variable E : externals.
Variables (PRF : Z) (P S : list Z) (c hLen l r : Z).

Fixpoint iterate (n : nat) (i u : Z) (st : regs E) : regs E + world E :=
  match n with
  | O => inl st
  | Datatypes.S n' =>
    match iteration E PRF P S hLen i u st with
    | inl st' => iterate n' i (u + 1) st'
    | inr w => inr w
    end
  end.

(** One round of the loop on [i]: zero [T], then the [c] iterations. *)
Definition block (i : Z) (st : regs E) : regs E + world E :=
  iterate (Z.to_nat c) i 1
    {| r_world := r_world st; r_U := r_U st;
       r_T := memset (r_T st) 0 (Z.to_nat hLen) |}.

Definition block_len (i : Z) : Z := if i =? l then r else hLen.

Fixpoint blocks (n : nat) (i : Z) (st : regs E) (m : memory)
    (log : list (Z * Z)) : result E :=
  match n with
  | O => {| rc := PKCS5_OK; handle := md_closed;
            final_world := gcry_md_close E (r_world st);
            mem := m; written := log |}
  | Datatypes.S n' =>
    match block i st with
    | inl st' =>
      blocks n' (i + 1) st'
        (store_DK m (Z.to_nat ((i - 1) * hLen)) (r_T st') (Z.to_nat (block_len i)))
        (log ++ [((i - 1) * hLen, block_len i)])
    | inr w => {| rc := PKCS5_INVALID_PRF; handle := md_open;
                  final_world := w; mem := m; written := log |}
    end
  end.

(** [n] rounds that do not end the call: the locals, the caller's memory
    and the copies after them, or what the round that fails returns. *)
Fixpoint rounds (n : nat) (i : Z) (st : regs E) (m : memory)
    (log : list (Z * Z)) : regs E * memory * list (Z * Z) + result E :=
  match n with
  | O => inl (st, m, log)
  | Datatypes.S n' =>
    match block i st with
    | inl st' =>
      rounds n' (i + 1) st'
        (store_DK m (Z.to_nat ((i - 1) * hLen)) (r_T st') (Z.to_nat (block_len i)))
        (log ++ [((i - 1) * hLen, block_len i)])
    | inr w => inr {| rc := PKCS5_INVALID_PRF; handle := md_open;
                      final_world := w; mem := m; written := log |}
    end
  end.

(** The accumulators of the first [n] rounds from [i] on, [None] when one
    of them fails. *)
Fixpoint block_values (n : nat) (i : Z) (st : regs E) : option (list (list Z)) :=
  match n with
  | O => Some []
  | Datatypes.S n' =>
    match block i st with
    | inl st' =>
      match block_values n' (i + 1) st' with
      | Some Ts => Some (bytes_at (r_T st') (Z.to_nat hLen) :: Ts)
      | None => None
      end
    | inr _ => None
    end
  end.

End Pure.

(** The whole function without fuel. *)
Definition run (E : externals) (w : world E) (U0 T0 : list Z) (m : memory)
    (PRF c dkLen : Z) : result E :=
  let stop code := {| rc := code; handle := md_unopened;
                      final_world := w; mem := m; written := [] |} in
  let hLen := uint (gcry_md_get_algo_dlen E PRF) in
  if (hLen =? 0) || (hLen >? MAX_PRF_BLOCK_LEN) then stop PKCS5_INVALID_PRF
  else if c =? 0 then stop PKCS5_INVALID_ITERATION_COUNT
  else if dkLen =? 0 then stop PKCS5_INVALID_DERIVED_KEY_LENGTH
  else if dkLen >? 4294967295 then stop PKCS5_DERIVED_KEY_TOO_LONG
  else
    let l := block_count dkLen hLen in
    let r := last_len dkLen hLen l in
    let '(w1, err) := gcry_md_open E w PRF in
    if negb (err =? 0) then
      {| rc := PKCS5_INVALID_PRF; handle := md_unopened;
         final_world := w1; mem := m; written := [] |}
    else
      blocks E PRF (mem_P m) (mem_S m) c hLen l r (Z.to_nat l) 1
        {| r_world := w1; r_U := U0; r_T := T0 |} m [].

(** The [memcpy]s of rounds [i .. i+n-1]. *)
Fixpoint copies (hLen l r : Z) (n : nat) (i : Z) : list (Z * Z) :=
  match n with
  | O => []
  | Datatypes.S n' => ((i - 1) * hLen, block_len hLen l r i) :: copies hLen l r n' (i + 1)
  end.

(** The number of bytes the copies of a log have moved. *)
Definition bytes_copied (log : list (Z * Z)) : Z :=
  fold_right (fun w acc => snd w + acc) 0 log.

(** Every copy of a log lies within the first [dkLen] bytes of [DK]. *)
Definition confined (dkLen : Z) (log : list (Z * Z)) : Prop :=
  Forall (fun w => 0 <= fst w /\ 0 <= snd w /\ fst w + snd w <= dkLen) log.

(** Memory [m'] is memory [m] but for the first [dkLen] bytes of [DK]. *)
Definition same_but_DK (dkLen : Z) (m m' : memory) : Prop :=
  mem_P m' = mem_P m /\ mem_S m' = mem_S m /\
  length (mem_DK m') = length (mem_DK m) /\
  drop (Z.to_nat dkLen) (mem_DK m') = drop (Z.to_nat dkLen) (mem_DK m).

(** ** PBKDF2 as PKCS#5 v2 words it

    Written from the comment at the head of the function and the
    specification, not from the code: [prf key text] is the pseudorandom
    function, [hLen] the length of its output. *)

Section Rfc.

Variable prf : list Z -> list Z -> list Z.
Variable hLen : Z.

(** [INT (i)], four octets, most significant first *)
Definition INT32_BE (i : Z) : list Z :=
  [ i / 2 ^ 24 mod 256; i / 2 ^ 16 mod 256; i / 2 ^ 8 mod 256; i mod 256 ].

(** [U_chain P S i k] is [U_(k+1)] of block [i]. *)
Fixpoint U_chain (P S : list Z) (i : Z) (k : nat) : list Z :=
  match k with
  | O => prf P (S ++ INT32_BE i)
  | Datatypes.S k' => prf P (U_chain P S i k')
  end.

Definition xor_bytes (a b : list Z) : list Z := zip_with Z.lxor a b.

(** [F (P, S, c, i) = U_1 xor U_2 xor ... xor U_c] *)
Definition F (P S : list Z) (c : Z) (i : Z) : list Z :=
  fold_left xor_bytes (map (U_chain P S i) (seq 0 (Z.to_nat c)))
    (replicate (Z.to_nat hLen) 0).

(** [l = CEIL (dkLen / hLen)] *)
Definition CEIL_div (dkLen : Z) : Z := (dkLen + hLen - 1) / hLen.

(** [DK = T_1 || T_2 || ... || T_l<0..r-1>], the first [dkLen] octets *)
Definition PBKDF2 (P S : list Z) (c dkLen : Z) : list Z :=
  take (Z.to_nat dkLen)
    (concat (map (F P S c) (seqZ 1 (CEIL_div dkLen)))).

End Rfc.

(** The collaborators compute [prf] and never fail: the context opens in
    a state where it is [idle]; keying a reset idle context succeeds and
    leaves it [keyed]; an allocation then succeeds; writing a text into a
    keyed context and reading it yields [prf key text] and leaves the
    context idle again. *)
Record hmac_protocol (E : externals) (PRF : Z) (prf : list Z -> list Z -> list Z)
    (w0 : world E) (idle : world E -> Prop) (keyed : list Z -> world E -> Prop)
    : Prop := {
  open_ok : exists w, gcry_md_open E w0 PRF = (w, 0) /\ idle w;
  setkey_ok : forall w key, idle w ->
    exists w', gcry_md_setkey E (gcry_md_reset E w) key = (w', 0) /\ keyed key w';
  alloca_ok : forall w key n, keyed key w -> gnutls_alloca E w n = true;
  read_ok : forall w key text, keyed key w ->
    exists w', gcry_md_read E (gcry_md_write E w text) PRF = (w', Some (prf key text))
               /\ idle w';
  prf_len : forall key text,
    Z.of_nat (length (prf key text)) = uint (gcry_md_get_algo_dlen E PRF)
}.

Definition hmac_ok (E : externals) (PRF : Z) (prf : list Z -> list Z -> list Z)
    (w0 : world E) : Prop :=
  exists idle keyed, hmac_protocol E PRF prf w0 idle keyed.

(** ** A small instance of the collaborators

    A keyed checksum of [dlen] bytes stands for the pseudorandom function.
    The context counts the keyings; the [setkey_fails_at]-th keying fails
    and the reads after the [read_null_at]-th keying yield [NULL] ([0]:
    none does, the code reads a context it has keyed), [open_err] is what
    [gcry_md_open] returns and [alloc] whether allocations succeed. *)

Module Toy.

Record state : Type := { key : list Z; text : list Z; keyings : nat; closed : bool }.

Definition total (bs : list Z) : Z := fold_right Z.add 0 bs.

Definition checksum (dlen : Z) (k t : list Z) : list Z :=
  map (fun j => (total k + 3 * total t + 7 * j + Z.of_nat (length t)) mod 256)
      (seqZ 0 dlen).

Definition ext (dlen open_err : Z) (alloc : bool)
    (setkey_fails_at read_null_at : nat) : externals :=
  {| world := state;
     gcry_md_get_algo_dlen := fun _ => dlen;
     gcry_md_open := fun w _ => (w, open_err);
     gcry_md_reset := fun w =>
       {| key := key w; text := []; keyings := keyings w; closed := closed w |};
     gcry_md_setkey := fun w k =>
       let n := Datatypes.S (keyings w) in
       ({| key := k; text := text w; keyings := n; closed := closed w |},
        if Nat.eqb n setkey_fails_at then 1 else 0);
     gcry_md_write := fun w t =>
       {| key := key w; text := text w ++ t; keyings := keyings w; closed := closed w |};
     gcry_md_read := fun w _ =>
       (w, if Nat.eqb (keyings w) read_null_at then None
           else Some (checksum dlen (key w) (text w)));
     gcry_md_close := fun w =>
       {| key := key w; text := text w; keyings := keyings w; closed := true |};
     gnutls_alloca := fun _ _ => alloc |}.

Definition fresh : state := {| key := []; text := []; keyings := 0; closed := false |}.

(** Every call succeeds. *)
Definition good (dlen : Z) : externals := ext dlen 0 true 0 0.

Definition caller (P S : list Z) (n : nat) : memory :=
  {| mem_P := P; mem_S := S; mem_DK := replicate n 0 |}.

End Toy.

(** ** Locals that differ in what the code does not read

    [U] and [T] are not initialised.  Two states of the locals agree on
    [T] when they hold the same context and the same first [h] bytes of
    [T], and on [U] when they hold the same first [h] bytes of [U]. *)

Definition agree_T {E : externals} (h : nat) (st1 st2 : regs E) : Prop :=
  r_world st1 = r_world st2 /\
  take h (r_T st1) = take h (r_T st2) /\
  (h <= length (r_T st1))%nat /\ (h <= length (r_T st2))%nat.

Definition agree_U {E : externals} (h : nat) (st1 st2 : regs E) : Prop :=
  bytes_at (r_U st1) h = bytes_at (r_U st2) h.

(** ** Reading a block index back, counting the keyings *)

(** The number that a sequence of octets, most significant first, stands
    for. *)
Definition be32_decode (bs : list Z) : Z :=
  fold_left (fun acc b => acc * 256 + b) bs 0.

(** The collaborators [E] with a counter beside their state: every call of
    [gcry_md_setkey] adds one to it, nothing else changes it. *)
Definition counted (E : externals) : externals :=
  {| world := world E * nat;
     gcry_md_get_algo_dlen := gcry_md_get_algo_dlen E;
     gcry_md_open := fun w a =>
       let '(w', err) := gcry_md_open E (fst w) a in ((w', snd w), err);
     gcry_md_reset := fun w => (gcry_md_reset E (fst w), snd w);
     gcry_md_setkey := fun w k =>
       let '(w', rc) := gcry_md_setkey E (fst w) k in
       ((w', Datatypes.S (snd w)), rc);
     gcry_md_write := fun w t => (gcry_md_write E (fst w) t, snd w);
     gcry_md_read := fun w a =>
       let '(w', p) := gcry_md_read E (fst w) a in ((w', snd w), p);
     gcry_md_close := fun w => (gcry_md_close E (fst w), snd w);
     gnutls_alloca := fun w n => gnutls_alloca E (fst w) n |}.

(** The collaborators [E] with the list of the texts written so far
    beside their state: every call of [gcry_md_write] appends its text,
    nothing else changes the list. *)
Definition logged (E : externals) : externals :=
  {| world := world E * list (list Z);
     gcry_md_get_algo_dlen := gcry_md_get_algo_dlen E;
     gcry_md_open := fun w a =>
       let '(w', err) := gcry_md_open E (fst w) a in ((w', snd w), err);
     gcry_md_reset := fun w => (gcry_md_reset E (fst w), snd w);
     gcry_md_setkey := fun w k =>
       let '(w', rc) := gcry_md_setkey E (fst w) k in ((w', snd w), rc);
     gcry_md_write := fun w t => (gcry_md_write E (fst w) t, snd w ++ [t]);
     gcry_md_read := fun w a =>
       let '(w', p) := gcry_md_read E (fst w) a in ((w', snd w), p);
     gcry_md_close := fun w => (gcry_md_close E (fst w), snd w);
     gnutls_alloca := fun w n => gnutls_alloca E (fst w) n |}.

(** The collaborators [E] with two counters beside their state: the calls
    of [gcry_md_open] that returned no error, and the calls of
    [gcry_md_close]. *)
Definition audited (E : externals) : externals :=
  {| world := world E * (nat * nat);
     gcry_md_get_algo_dlen := gcry_md_get_algo_dlen E;
     gcry_md_open := fun w a =>
       let '(w', err) := gcry_md_open E (fst w) a in
       ((w', (if err =? 0 then Datatypes.S (fst (snd w)) else fst (snd w),
              snd (snd w))), err);
     gcry_md_reset := fun w => (gcry_md_reset E (fst w), snd w);
     gcry_md_setkey := fun w k =>
       let '(w', rc) := gcry_md_setkey E (fst w) k in ((w', snd w), rc);
     gcry_md_write := fun w t => (gcry_md_write E (fst w) t, snd w);
     gcry_md_read := fun w a =>
       let '(w', p) := gcry_md_read E (fst w) a in ((w', snd w), p);
     gcry_md_close := fun w =>
       (gcry_md_close E (fst w), (fst (snd w), Datatypes.S (snd (snd w))));
     gnutls_alloca := fun w n => gnutls_alloca E (fst w) n |}.

(** * Properties *)

(** ** Machine integers *)

Lemma uint_range x : 0 <= uint x < 2 ^ 32.
Proof. unfold uint. apply Z.mod_pos_bound. lia. Qed.

Lemma uint_small x : 0 <= x < 2 ^ 32 -> uint x = x.
Proof. intros H. unfold uint. apply Z.mod_small. exact H. Qed.

Lemma uint_sint x : uint (sint x) = uint x.
Proof.
  unfold uint, sint.
  rewrite Zminus_mod, Z.mod_mod by lia.
  rewrite <- Zminus_mod.
  f_equal. lia.
Qed.

Lemma uint_sint_add x y : uint (sint (sint x + y)) = uint (x + y).
Proof.
  rewrite uint_sint. unfold uint.
  rewrite Zplus_mod. fold (uint (sint x)). rewrite uint_sint. unfold uint.
  rewrite <- Zplus_mod. reflexivity.
Qed.

Lemma sint_sint_add x y : sint (sint x + y) = sint (x + y).
Proof.
  unfold sint at 1 3. f_equal.
  replace (sint x + y + 2 ^ 31) with (sint x + (y + 2 ^ 31)) by lia.
  replace (x + y + 2 ^ 31) with (x + (y + 2 ^ 31)) by lia.
  rewrite (Zplus_mod (sint x)), (Zplus_mod x).
  fold (uint (sint x)) (uint x). rewrite uint_sint. reflexivity.
Qed.

(** ** Buffers *)

Lemma length_bytes_at p n : length (bytes_at p n) = n.
Proof.
  unfold bytes_at. rewrite length_take, length_app, length_replicate. lia.
Qed.

Lemma bytes_at_take p n : (n <= length p)%nat -> bytes_at p n = take n p.
Proof. intros H. unfold bytes_at. rewrite take_app_le by lia. reflexivity. Qed.

Lemma bytes_at_app p q n : length p = n -> bytes_at (p ++ q) n = p.
Proof.
  intros H. rewrite bytes_at_take by (rewrite length_app; lia).
  rewrite take_app_le by lia. apply take_ge. lia.
Qed.

Lemma bytes_at_shorter p n k :
  (k <= n)%nat -> bytes_at (bytes_at p n) k = bytes_at p k.
Proof.
  intros H. rewrite (bytes_at_take (bytes_at p n)) by (rewrite length_bytes_at; lia).
  unfold bytes_at. rewrite take_take.
  replace (k `min` n)%nat with k by lia.
  destruct (decide (k <= length p)%nat).
  - rewrite !take_app_le by lia. reflexivity.
  - rewrite !take_app_ge by lia. f_equal.
    rewrite !take_replicate. f_equal. lia.
Qed.

Lemma length_memcpy dst off src n :
  (off + n <= length dst)%nat -> length (memcpy dst off src n) = length dst.
Proof.
  intros H. unfold memcpy.
  rewrite !length_app, length_take, length_bytes_at, length_drop. lia.
Qed.

(** A copy placed right after a prefix [pre] of the buffer. *)
Lemma memcpy_after pre rest src n :
  memcpy (pre ++ rest) (length pre) src n = pre ++ bytes_at src n ++ drop n rest.
Proof.
  unfold memcpy.
  rewrite take_app_length. f_equal. f_equal.
  rewrite drop_app_ge by lia. f_equal. lia.
Qed.

Lemma xor_into_step n T U :
  xor_into (Datatypes.S n) T U
  = <[n := Z.lxor (nth n (xor_into n T U) 0) (nth n U 0)]> (xor_into n T U).
Proof.
  unfold xor_into. rewrite seq_S, fold_left_app. reflexivity.
Qed.

Lemma length_xor_into n T U : length (xor_into n T U) = length T.
Proof.
  induction n as [|n IH]; [reflexivity|].
  rewrite xor_into_step, length_insert. exact IH.
Qed.

(** The loop on [k] is the byte-wise exclusive or of the first [n] bytes. *)
Lemma xor_into_zip n t u T' U' :
  length t = n -> length u = n ->
  xor_into n (t ++ T') (u ++ U') = zip_with Z.lxor t u ++ T'.
Proof.
  revert t u T' U'. induction n as [|n IH]; intros t u T' U' Ht Hu.
  - destruct t, u; try discriminate. reflexivity.
  - destruct (decide (t = [])) as [->|Hne]; [discriminate|].
    destruct (exists_last Hne) as (t1 & a & ->).
    destruct (decide (u = [])) as [->|Hne']; [discriminate|].
    destruct (exists_last Hne') as (u1 & b & ->).
    rewrite !length_app in Ht, Hu. simpl in Ht, Hu.
    rewrite xor_into_step.
    rewrite <- !app_assoc. simpl.
    rewrite (IH t1 u1) by lia.
    assert (Hz : length (zip_with Z.lxor t1 u1) = n)
      by (rewrite length_zip_with; lia).
    rewrite zip_with_app by lia. simpl.
    rewrite <- app_assoc. simpl.
    rewrite app_nth2 by lia. rewrite Hz, Nat.sub_diag. simpl.
    rewrite app_nth2 by lia.
    replace (n - length u1)%nat with 0%nat by lia. simpl.
    replace n with (length (zip_with Z.lxor t1 u1) + 0)%nat at 1 by lia.
    rewrite insert_app_r. reflexivity.
Qed.

(** ** The block index bytes *)

Lemma land_low32 a mask :
  0 <= mask < 2 ^ 32 -> Z.land a mask = Z.land (uint a) mask.
Proof.
  intros Hm. apply Z.bits_inj'. intros n Hn.
  rewrite !Z.land_spec.
  destruct (Z.lt_ge_cases n 32) as [Hlt|Hge].
  - unfold uint. rewrite Z.mod_pow2_bits_low by lia. reflexivity.
  - replace (Z.testbit mask n) with false; [rewrite !andb_false_r; reflexivity|].
    symmetry. destruct (Z.eq_dec mask 0) as [->|Hz]; [apply Z.bits_0|].
    apply Z.bits_above_log2; [lia|].
    apply Z.log2_lt_pow2; [lia|].
    apply Z.lt_le_trans with (2 ^ 32); [lia|].
    apply Z.pow_le_mono_r; lia.
Qed.

Lemma INT_uint i : INT i = INT (uint i).
Proof.
  unfold INT.
  rewrite (uint_small (uint i)) by apply uint_range.
  rewrite (land_low32 i 0xff0000), (land_low32 i 0xff00), (land_low32 i 0xff)
    by lia.
  reflexivity.
Qed.

Lemma byte_of_word x k :
  0 <= k -> Z.shiftr (Z.land x (Z.shiftl 255 k)) k = x / 2 ^ k mod 256.
Proof.
  intros Hk.
  rewrite Z.shiftr_land.
  rewrite Z.shiftr_shiftl_l by lia.
  rewrite Z.sub_diag, Z.shiftl_0_r.
  change 255 with (Z.ones 8).
  rewrite Z.land_ones by lia.
  rewrite Z.shiftr_div_pow2 by lia.
  reflexivity.
Qed.

(** The bytes the code stores are the big-endian encoding of the index. *)
Lemma INT_is_INT32_BE i : 0 <= i < 2 ^ 32 -> INT i = INT32_BE i.
Proof.
  intros Hi. unfold INT, INT32_BE.
  rewrite uint_small by lia.
  change 0xff000000 with (Z.shiftl 255 24).
  change 0x00ff0000 with (Z.shiftl 255 16).
  change 0x0000ff00 with (Z.shiftl 255 8).
  change 0x000000ff with (Z.shiftl 255 0).
  rewrite !byte_of_word by lia.
  repeat f_equal.
  - change (2 ^ 0) with 1. rewrite Z.div_1_r. reflexivity.
Qed.

(** ** The loops and their fuel *)

Section LoopFacts.

Variable E : externals.
Variables (PRF : Z) (P S : list Z) (c hLen l r : Z).

Lemma iteration_uint i u st :
  iteration E PRF P S hLen i u st = iteration E PRF P S hLen (uint i) u st.
Proof. unfold iteration. rewrite (INT_uint i). reflexivity. Qed.

(** With [c] below [UINT_MAX] the loop on [u] makes its [c + 1 - u]
    remaining iterations and stops, whatever fuel is left over. *)
Lemma loop_u_run n : forall fuel i u st,
  c < 2 ^ 32 - 1 -> 0 <= u -> u + Z.of_nat n = c + 1 -> (n < fuel)%nat ->
  loop_u E PRF P S c hLen fuel i u st
  = match iterate E PRF P S hLen n i u st with
    | inl st' => IterDone E st'
    | inr w => IterFail E w
    end.
Proof.
  induction n as [|n IH]; intros fuel i u st Hc Hu Hn Hf.
  - destruct fuel as [|fuel]; [lia|]. simpl.
    destruct (Z.leb_spec u c); [lia|]. reflexivity.
  - destruct fuel as [|fuel]; [lia|]. simpl.
    destruct (Z.leb_spec u c); [|lia].
    destruct (iteration E PRF P S hLen i u st) as [st'|w]; [|reflexivity].
    rewrite uint_small by lia.
    apply IH; lia.
Qed.

(** More fuel does not change an answer. *)
Lemma loop_u_mono fuel : forall fuel' i u st,
  (fuel <= fuel')%nat ->
  loop_u E PRF P S c hLen fuel i u st <> IterOutOfFuel E ->
  loop_u E PRF P S c hLen fuel' i u st = loop_u E PRF P S c hLen fuel i u st.
Proof.
  induction fuel as [|fuel IH]; intros fuel' i u st Hle Hne.
  - simpl in Hne. congruence.
  - destruct fuel' as [|fuel']; [lia|]. simpl in *.
    destruct (u <=? c); [|reflexivity].
    destruct (iteration E PRF P S hLen i u st) as [st'|w]; [|reflexivity].
    apply IH; [lia|exact Hne].
Qed.

(** With [c = UINT_MAX] the test [u <= c] never fails: the loop on [u]
    is left only through a [return] of its body. *)
Lemma loop_u_wraps fuel : forall i u st st',
  2 ^ 32 - 1 <= c -> 0 <= u < 2 ^ 32 ->
  loop_u E PRF P S c hLen fuel i u st <> IterDone E st'.
Proof.
  induction fuel as [|fuel IH]; intros i u st st' Hc Hu; simpl.
  - discriminate.
  - destruct (Z.leb_spec u c); [|lia].
    destruct (iteration E PRF P S hLen i u st) as [st1|w]; [|discriminate].
    apply IH; [exact Hc|apply uint_range].
Qed.

Lemma iterate_uint n : forall i u st,
  iterate E PRF P S hLen n i u st = iterate E PRF P S hLen n (uint i) u st.
Proof.
  induction n as [|n IH]; intros i u st; simpl; [reflexivity|].
  rewrite <- iteration_uint.
  destruct (iteration E PRF P S hLen i u st); [apply IH|reflexivity].
Qed.

(** With [c] and [l] below [UINT_MAX] the loop on [i] makes its remaining
    [l + 1 - i] rounds, or returns from the first round that fails. *)
Lemma loop_i_run n : forall fuel fuel_u i st m log,
  0 <= c < 2 ^ 32 - 1 -> l < 2 ^ 32 - 1 -> 0 <= hLen ->
  (l - 1) * hLen < 2 ^ 32 ->
  1 <= uint i -> uint i + Z.of_nat n = l + 1 ->
  (n < fuel)%nat -> (Z.to_nat c < fuel_u)%nat ->
  loop_i E PRF P S c hLen l r fuel fuel_u i st m log
  = Returned (blocks E PRF P S c hLen l r n (uint i) st m log).
Proof.
  induction n as [|n IH]; intros fuel fuel_u i st m log Hc Hl Hh Hoff Hi Hn Hf Hfu.
  - destruct fuel as [|fuel]; [lia|]. simpl.
    destruct (Z.leb_spec (uint i) l); [lia|]. reflexivity.
  - destruct fuel as [|fuel]; [lia|]. simpl.
    destruct (Z.leb_spec (uint i) l); [|lia].
    rewrite (loop_u_run (Z.to_nat c)) by lia.
    unfold block. rewrite <- iterate_uint.
    destruct (iterate E PRF P S hLen (Z.to_nat c) i 1 _) as [st'|w]; [|reflexivity].
    assert (Hprev : uint (sint (i - 1)) = uint i - 1).
    { rewrite uint_sint. unfold uint in *.
      rewrite Zminus_mod. rewrite (Z.mod_small 1) by lia.
      apply Z.mod_small. lia. }
    assert (Hnext : uint (sint (i + 1)) = uint i + 1).
    { rewrite uint_sint. unfold uint in *.
      rewrite Zplus_mod. rewrite (Z.mod_small 1) by lia.
      apply Z.mod_small. lia. }
    rewrite Hprev.
    rewrite (uint_small ((uint i - 1) * hLen)) by nia.
    rewrite IH by lia.
    rewrite Hnext. reflexivity.
Qed.

Lemma loop_i_mono fuel : forall fuel' fuel_u fuel_u' i st m log res,
  (fuel <= fuel')%nat -> (fuel_u <= fuel_u')%nat ->
  loop_i E PRF P S c hLen l r fuel fuel_u i st m log = Returned res ->
  loop_i E PRF P S c hLen l r fuel' fuel_u' i st m log = Returned res.
Proof.
  induction fuel as [|fuel IH]; intros fuel' fuel_u fuel_u' i st m log res Hle Hle' H.
  - simpl in H. discriminate.
  - destruct fuel' as [|fuel']; [lia|]. simpl in *.
    destruct (uint i <=? l); [|exact H].
    match goal with |- context [loop_u E PRF P S c hLen fuel_u' i 1 ?s] =>
      pose proof (loop_u_mono fuel_u fuel_u' i 1 s Hle') as Hu end.
    destruct (loop_u E PRF P S c hLen fuel_u i 1 _) as [st'|w|] eqn:Hin.
    + rewrite Hu by discriminate. eapply IH; [| |exact H]; lia.
    + rewrite Hu by discriminate. exact H.
    + discriminate.
Qed.

(** The loop on [i] returns [PKCS5_OK], after [gcry_md_close], or
    [PKCS5_INVALID_PRF], with the handle still open. *)
Lemma loop_i_codes fuel : forall fuel_u i st m log res,
  loop_i E PRF P S c hLen l r fuel fuel_u i st m log = Returned res ->
  (rc res = PKCS5_OK /\ handle res = md_closed) \/
  (rc res = PKCS5_INVALID_PRF /\ handle res = md_open).
Proof.
  induction fuel as [|fuel IH]; intros fuel_u i st m log res H; simpl in H.
  - discriminate.
  - destruct (uint i <=? l).
    + destruct (loop_u E PRF P S c hLen fuel_u i 1 _) as [st'|w|].
      * eapply IH; exact H.
      * inversion H; subst. right. split; reflexivity.
      * discriminate.
    + inversion H; subst. left. split; reflexivity.
Qed.

(** With [l = UINT_MAX] the test [(uint)i <= l] never fails: the function
    does not reach [return PKCS5_OK]. *)
Lemma loop_i_wraps fuel : forall fuel_u i st m log res,
  2 ^ 32 - 1 <= l ->
  loop_i E PRF P S c hLen l r fuel fuel_u i st m log = Returned res ->
  rc res = PKCS5_INVALID_PRF.
Proof.
  induction fuel as [|fuel IH]; intros fuel_u i st m log res Hl H; simpl in H.
  - discriminate.
  - pose proof (uint_range i).
    destruct (Z.leb_spec (uint i) l); [|lia].
    destruct (loop_u E PRF P S c hLen fuel_u i 1 _) as [st'|w|].
    + eapply IH; [exact Hl|exact H].
    + inversion H; subst. reflexivity.
    + discriminate.
Qed.

(** Likewise with [c = UINT_MAX], once a round is entered. *)
Lemma loop_i_inner_wraps fuel fuel_u i st m log res :
  2 ^ 32 - 1 <= c -> uint i <= l ->
  loop_i E PRF P S c hLen l r fuel fuel_u i st m log = Returned res ->
  rc res = PKCS5_INVALID_PRF.
Proof.
  intros Hc Hi H. destruct fuel as [|fuel]; simpl in H; [discriminate|].
  destruct (Z.leb_spec (uint i) l); [|lia].
  destruct (loop_u E PRF P S c hLen fuel_u i 1 _) as [st'|w|] eqn:Hu.
  - exfalso. revert Hu. apply loop_u_wraps; lia.
  - inversion H; subst. reflexivity.
  - discriminate.
Qed.

End LoopFacts.

(** ** Block count and remainder *)

Lemma block_count_spec dkLen hLen :
  1 <= hLen -> 1 <= dkLen < 2 ^ 32 ->
  let l := block_count dkLen hLen in
  1 <= l <= dkLen /\ (l - 1) * hLen < dkLen <= l * hLen.
Proof.
  intros Hh Hd. unfold block_count.
  pose proof (Z.div_mod dkLen hLen ltac:(lia)) as Hdm.
  pose proof (Z.mod_pos_bound dkLen hLen ltac:(lia)) as Hm.
  assert (Hq : 0 <= dkLen / hLen <= dkLen).
  { split; [apply Z.div_pos; lia|].
    apply Z.div_le_upper_bound; [lia|]. nia. }
  destruct (Z.eqb_spec (dkLen mod hLen) 0) as [H0|H0]; simpl.
  - nia.
  - assert (dkLen / hLen < dkLen) by nia.
    rewrite uint_small by lia. nia.
Qed.

Lemma block_count_ceil dkLen hLen :
  1 <= hLen -> 1 <= dkLen < 2 ^ 32 ->
  block_count dkLen hLen = CEIL_div hLen dkLen.
Proof.
  intros Hh Hd.
  pose proof (block_count_spec dkLen hLen Hh Hd) as [H1 H2].
  unfold CEIL_div.
  apply Z.div_unique with (r := dkLen + hLen - 1 - block_count dkLen hLen * hLen).
  - left. lia.
  - lia.
Qed.

Lemma last_len_spec dkLen hLen :
  1 <= hLen -> 1 <= dkLen < 2 ^ 32 ->
  let l := block_count dkLen hLen in
  last_len dkLen hLen l = dkLen - (l - 1) * hLen /\
  1 <= last_len dkLen hLen l <= hLen.
Proof.
  intros Hh Hd l.
  pose proof (block_count_spec dkLen hLen Hh Hd) as [H1 H2]. fold l in H1, H2.
  unfold last_len.
  rewrite (uint_small (l - 1)) by lia.
  rewrite (uint_small ((l - 1) * hLen)) by nia.
  rewrite uint_small by nia. nia.
Qed.

(** ** The function and its fuel-free reading *)

Section RunFacts.

Variable E : externals.

(** With the iteration count and the block count below [UINT_MAX], the
    function returns as soon as the fuel exceeds both, and returns [run]. *)
Lemma pbkdf2_run fuel w U0 T0 m PRF c dkLen :
  0 <= c < 2 ^ 32 - 1 -> 0 <= dkLen < 2 ^ 32 ->
  block_count dkLen (uint (gcry_md_get_algo_dlen E PRF)) < 2 ^ 32 - 1 ->
  (Z.to_nat c < fuel)%nat ->
  (Z.to_nat (block_count dkLen (uint (gcry_md_get_algo_dlen E PRF))) < fuel)%nat ->
  _gnutls_pkcs5_pbkdf2 E fuel w U0 T0 m PRF c dkLen
  = Returned (run E w U0 T0 m PRF c dkLen).
Proof.
  intros Hc Hd Hl Hfc Hfl.
  unfold _gnutls_pkcs5_pbkdf2, run.
  set (hLen := uint (gcry_md_get_algo_dlen E PRF)) in *.
  destruct (Z.eqb_spec hLen 0); simpl; [reflexivity|].
  destruct (hLen >? MAX_PRF_BLOCK_LEN) eqn:Hmax; [reflexivity|].
  destruct (c =? 0); [reflexivity|].
  destruct (Z.eqb_spec dkLen 0); [reflexivity|].
  destruct (dkLen >? 4294967295); [reflexivity|].
  destruct (gcry_md_open E w PRF) as [w1 err].
  destruct (negb (err =? 0)); [reflexivity|].
  pose proof (uint_range (gcry_md_get_algo_dlen E PRF)) as Hr. fold hLen in Hr.
  pose proof (block_count_spec dkLen hLen ltac:(lia) ltac:(lia)) as [H1 H2].
  rewrite (loop_i_run E PRF (mem_P m) (mem_S m) c hLen _ _
             (Z.to_nat (block_count dkLen hLen)));
    rewrite ?(uint_small 1); try lia.
  reflexivity.
Qed.

(** Whatever the fuel, what the function returns is [run], as long as
    neither counter wraps. *)
Lemma pbkdf2_returned fuel w U0 T0 m PRF c dkLen res :
  0 <= c < 2 ^ 32 - 1 -> 0 <= dkLen < 2 ^ 32 ->
  block_count dkLen (uint (gcry_md_get_algo_dlen E PRF)) < 2 ^ 32 - 1 ->
  _gnutls_pkcs5_pbkdf2 E fuel w U0 T0 m PRF c dkLen = Returned res ->
  res = run E w U0 T0 m PRF c dkLen.
Proof.
  intros Hc Hd Hl H.
  set (l := block_count dkLen (uint (gcry_md_get_algo_dlen E PRF))) in *.
  set (big := Nat.max fuel (Datatypes.S (Nat.max (Z.to_nat c) (Z.to_nat l)))).
  assert (Hbig : _gnutls_pkcs5_pbkdf2 E big w U0 T0 m PRF c dkLen = Returned res).
  { unfold _gnutls_pkcs5_pbkdf2 in *.
    destruct (_ || _); [exact H|].
    destruct (c =? 0); [exact H|].
    destruct (dkLen =? 0); [exact H|].
    destruct (dkLen >? 4294967295); [exact H|].
    destruct (gcry_md_open E w PRF) as [w1 err].
    destruct (negb (err =? 0)); [exact H|].
    eapply loop_i_mono; [| |exact H]; lia. }
  rewrite pbkdf2_run in Hbig by (fold l; lia).
  congruence.
Qed.

(** A call that returns [PKCS5_OK] had valid parameters, an iteration
    count and a block count below [UINT_MAX], and opened the context. *)
Lemma pbkdf2_ok_inv fuel w U0 T0 m PRF c dkLen res :
  0 <= c < 2 ^ 32 -> 0 <= dkLen < 2 ^ 32 ->
  _gnutls_pkcs5_pbkdf2 E fuel w U0 T0 m PRF c dkLen = Returned res ->
  rc res = PKCS5_OK ->
  let hLen := uint (gcry_md_get_algo_dlen E PRF) in
  1 <= hLen <= MAX_PRF_BLOCK_LEN /\ 1 <= c < 2 ^ 32 - 1 /\ 1 <= dkLen /\
  block_count dkLen hLen < 2 ^ 32 - 1 /\
  exists w1, gcry_md_open E w PRF = (w1, 0).
Proof.
  intros Hc Hd H Hok hLen.
  unfold _gnutls_pkcs5_pbkdf2 in H. fold hLen in H.
  pose proof (uint_range (gcry_md_get_algo_dlen E PRF)) as Hr. fold hLen in Hr.
  destruct (Z.eqb_spec hLen 0); simpl in H;
    [inversion H; subst; discriminate|].
  destruct (hLen >? MAX_PRF_BLOCK_LEN) eqn:Hmax;
    [inversion H; subst; discriminate|].
  destruct (Z.eqb_spec c 0); [inversion H; subst; discriminate|].
  destruct (Z.eqb_spec dkLen 0); [inversion H; subst; discriminate|].
  destruct (dkLen >? 4294967295); [inversion H; subst; discriminate|].
  destruct (gcry_md_open E w PRF) as [w1 err].
  destruct (Z.eqb_spec err 0); simpl in H;
    [|inversion H; subst; discriminate].
  pose proof (block_count_spec dkLen hLen ltac:(lia) ltac:(lia)) as [H1 H2].
  assert (Hcc : c < 2 ^ 32 - 1).
  { destruct (Z.lt_ge_cases c (2 ^ 32 - 1)); [assumption|].
    apply loop_i_inner_wraps in H; [congruence|lia|].
    rewrite uint_small; lia. }
  assert (Hll : block_count dkLen hLen < 2 ^ 32 - 1).
  { destruct (Z.lt_ge_cases (block_count dkLen hLen) (2 ^ 32 - 1)); [assumption|].
    apply loop_i_wraps in H; [congruence|lia]. }
  rewrite Z.gtb_ltb in Hmax. apply Z.ltb_ge in Hmax.
  repeat split; try lia.
  subst err. exists w1. reflexivity.
Qed.

End RunFacts.

(** ** What the rounds write *)

Lemma drop_memcpy dst off src n b :
  (off + n <= b)%nat -> (b <= length dst)%nat ->
  drop b (memcpy dst off src n) = drop b dst.
Proof.
  intros H1 H2. unfold memcpy.
  rewrite drop_app_ge by (rewrite length_take; lia).
  rewrite length_take.
  rewrite drop_app_ge by (rewrite length_bytes_at; lia).
  rewrite length_bytes_at, drop_drop. f_equal. lia.
Qed.

Lemma copies_app hLen l r n : forall k i,
  copies hLen l r (n + k) i
  = copies hLen l r n i ++ copies hLen l r k (i + Z.of_nat n).
Proof.
  induction n as [|n IH]; intros k i; simpl.
  - f_equal. lia.
  - rewrite IH. do 3 f_equal. lia.
Qed.

Section BlockFacts.

Variable E : externals.
Variables (PRF : Z) (P S : list Z) (c hLen l r : Z).

(** The rounds return [PKCS5_OK] with the handle closed after all [n] of
    them, or [PKCS5_INVALID_PRF] with the handle still open after fewer;
    each completed round has made its one copy; [P] and [S] are as they
    were. *)
Lemma blocks_shape n : forall i st m log,
  let res := blocks E PRF P S c hLen l r n i st m log in
  mem_P (mem res) = mem_P m /\ mem_S (mem res) = mem_S m /\
  exists k, written res = log ++ copies hLen l r k i /\
    ((rc res = PKCS5_OK /\ handle res = md_closed /\ k = n) \/
     (rc res = PKCS5_INVALID_PRF /\ handle res = md_open /\ (k < n)%nat)).
Proof.
  induction n as [|n IH]; intros i st m log; simpl.
  - repeat split. exists 0%nat. simpl. rewrite app_nil_r. split; [reflexivity|].
    left. repeat split.
  - destruct (block E PRF P S c hLen i st) as [st'|w]; simpl.
    + specialize (IH (i + 1) st'
        (store_DK m (Z.to_nat ((i - 1) * hLen)) (r_T st')
           (Z.to_nat (block_len hLen l r i)))
        (log ++ [((i - 1) * hLen, block_len hLen l r i)])).
      destruct IH as (HP & HS & k & Hw & Hk).
      split; [exact HP|]. split; [exact HS|].
      exists (Datatypes.S k). split.
      * rewrite Hw, <- app_assoc. reflexivity.
      * destruct Hk as [(? & ? & ?)|(? & ? & ?)]; [left|right];
          repeat split; try assumption; lia.
    + repeat split. exists 0%nat. simpl. rewrite app_nil_r.
      split; [reflexivity|]. right. repeat split. lia.
Qed.

(** The buffer after [n] successful rounds: behind the [(i-1) * hLen]
    bytes [pre] already there come the accumulators of the rounds, cut
    to what is left of [dkLen]. *)
Lemma blocks_ok_mem n : forall i st pre rest mP mS log,
  1 <= hLen -> 1 <= r <= hLen ->
  1 <= i -> i + Z.of_nat n = l + 1 ->
  Z.of_nat (length pre) = (i - 1) * hLen ->
  let res := blocks E PRF P S c hLen l r n i st
               {| mem_P := mP; mem_S := mS; mem_DK := pre ++ rest |} log in
  rc res = PKCS5_OK ->
  exists Ts, block_values E PRF P S c hLen n i st = Some Ts /\
    mem_DK (mem res)
    = pre ++ take (Z.to_nat ((l - i) * hLen + r)) (concat Ts)
          ++ drop (Z.to_nat ((l - i) * hLen + r)) rest.
Proof.
  induction n as [|n IH]; intros i st pre rest mP mS log Hh Hr Hi Hn Hpre; simpl.
  - intros _. exists []. split; [reflexivity|].
    replace (Z.to_nat ((l - i) * hLen + r)) with 0%nat by nia.
    reflexivity.
  - destruct (block E PRF P S c hLen i st) as [st'|w]; simpl;
      [|discriminate].
    assert (Hst : forall src k,
      store_DK {| mem_P := mP; mem_S := mS; mem_DK := pre ++ rest |}
        (Z.to_nat ((i - 1) * hLen)) src k
      = {| mem_P := mP; mem_S := mS;
           mem_DK := pre ++ bytes_at src k ++ drop k rest |}).
    { intros src k. unfold store_DK. simpl. f_equal.
      replace (Z.to_nat ((i - 1) * hLen)) with (length pre) by lia.
      apply memcpy_after. }
    rewrite Hst. clear Hst.
    destruct n as [|n].
    + (* the last round, cut to [r] bytes *)
      simpl. intros _.
      assert (i = l) by lia. subst i.
      unfold block_len. rewrite Z.eqb_refl.
      eexists. split; [reflexivity|].
      simpl. rewrite app_nil_r.
      replace ((l - l) * hLen + r) with r by lia.
      rewrite <- (bytes_at_shorter (r_T st') (Z.to_nat hLen) (Z.to_nat r)) by lia.
      rewrite (bytes_at_take (bytes_at _ _)) by (rewrite length_bytes_at; lia).
      reflexivity.
    + assert (Hil : i < l) by lia.
      assert (Hbl : block_len hLen l r i = hLen).
      { unfold block_len. destruct (Z.eqb_spec i l); [lia|reflexivity]. }
      rewrite !Hbl.
      rewrite app_assoc.
      intros Hok.
      destruct (IH (i + 1) st' (pre ++ bytes_at (r_T st') (Z.to_nat hLen))
                  (drop (Z.to_nat hLen) rest) mP mS
                  (log ++ [((i - 1) * hLen, hLen)]) Hh Hr ltac:(lia) ltac:(lia))
        as (Ts & HTs & Hmem).
      { rewrite length_app, length_bytes_at. lia. }
      { exact Hok. }
      rewrite HTs. eexists. split; [reflexivity|].
      rewrite Hmem. rewrite <- app_assoc. f_equal.
      simpl concat.
      replace (Z.to_nat ((l - i) * hLen + r))
        with (Z.to_nat hLen + Z.to_nat ((l - (i + 1)) * hLen + r))%nat by nia.
      rewrite <- (length_bytes_at (r_T st') (Z.to_nat hLen)) at 3.
      rewrite take_app_add. rewrite <- app_assoc. do 2 f_equal.
      rewrite drop_drop. reflexivity.
Qed.

End BlockFacts.

(** ** The uninitialised arrays and the fuel do not show *)

Section Agreement.

Variable E : externals.
Variables (PRF : Z) (P S : list Z) (c hLen l r : Z).

Lemma iteration_agree i u st1 st2 :
  agree_T (Z.to_nat hLen) st1 st2 ->
  (u <> 1 -> agree_U (Z.to_nat hLen) st1 st2) ->
  match iteration E PRF P S hLen i u st1, iteration E PRF P S hLen i u st2 with
  | inl a, inl b => agree_T (Z.to_nat hLen) a b /\ agree_U (Z.to_nat hLen) a b
  | inr w1, inr w2 => w1 = w2
  | _, _ => False
  end.
Proof.
  intros (Hw & HT & Hl1 & Hl2) HU. unfold iteration. rewrite <- Hw.
  destruct (gcry_md_setkey E (gcry_md_reset E (r_world st1)) P) as [w rc1].
  destruct (negb (rc1 =? 0)); [reflexivity|].
  assert (Hfed :
    (if u =? 1
     then if gnutls_alloca E w (Z.of_nat (length S) + 4)
          then Some (gcry_md_write E w (S ++ INT i)) else None
     else Some (gcry_md_write E w (bytes_at (r_U st1) (Z.to_nat hLen))))
    = (if u =? 1
       then if gnutls_alloca E w (Z.of_nat (length S) + 4)
            then Some (gcry_md_write E w (S ++ INT i)) else None
       else Some (gcry_md_write E w (bytes_at (r_U st2) (Z.to_nat hLen))))).
  { destruct (Z.eqb_spec u 1); [reflexivity|].
    unfold agree_U in HU. rewrite HU by assumption. reflexivity. }
  rewrite <- Hfed. clear Hfed.
  destruct (if u =? 1 then _ else _) as [w'|]; [|reflexivity].
  destruct (gcry_md_read E w' PRF) as [w'' [p|]]; [|reflexivity].
  set (h := Z.to_nat hLen) in *.
  assert (HU' : forall U, memcpy U 0 p h = bytes_at p h ++ drop h U).
  { intros U. unfold memcpy. rewrite take_0. reflexivity. }
  assert (HT' : forall T U, (h <= length T)%nat ->
    xor_into h T (memcpy U 0 p h)
    = zip_with Z.lxor (take h T) (bytes_at p h) ++ drop h T).
  { intros T U HlT. rewrite HU'.
    rewrite <- (take_drop h T) at 1.
    apply xor_into_zip; [rewrite length_take; lia|apply length_bytes_at]. }
  assert (Hz : forall T, (h <= length T)%nat ->
    length (zip_with Z.lxor (take h T) (bytes_at p h)) = h).
  { intros T HlT. rewrite length_zip_with, length_take, length_bytes_at. lia. }
  split.
  - unfold agree_T. simpl. split; [reflexivity|].
    rewrite !HT' by assumption.
    rewrite !take_app_le by (rewrite Hz; [lia|assumption]).
    rewrite HT. split; [reflexivity|].
    rewrite !length_app, !Hz by assumption. lia.
  - unfold agree_U. simpl. rewrite !HU'.
    rewrite !bytes_at_app by apply length_bytes_at. reflexivity.
Qed.

(** The loop on [u]: a run that does not exhaust its fuel is matched by
    any run with no less fuel from locals that agree. *)
Lemma loop_u_agree fuel1 : forall fuel2 i u st1 st2,
  (fuel1 <= fuel2)%nat ->
  agree_T (Z.to_nat hLen) st1 st2 ->
  (u <> 1 -> agree_U (Z.to_nat hLen) st1 st2) ->
  match loop_u E PRF P S c hLen fuel1 i u st1 with
  | IterDone _ a =>
    exists b, loop_u E PRF P S c hLen fuel2 i u st2 = IterDone E b
              /\ agree_T (Z.to_nat hLen) a b
  | IterFail _ w => loop_u E PRF P S c hLen fuel2 i u st2 = IterFail E w
  | IterOutOfFuel _ => True
  end.
Proof.
  induction fuel1 as [|fuel1 IH]; intros fuel2 i u st1 st2 Hle HT HU; simpl.
  - exact I.
  - destruct fuel2 as [|fuel2]; [lia|]. simpl.
    destruct (u <=? c).
    + pose proof (iteration_agree i u st1 st2 HT HU) as Hit.
      destruct (iteration E PRF P S hLen i u st1) as [a|w1],
               (iteration E PRF P S hLen i u st2) as [b|w2];
        try contradiction.
      * destruct Hit as [HT' HU'].
        apply IH; [lia|exact HT'|intros _; exact HU'].
      * congruence.
    + exists st2. split; [reflexivity|exact HT].
Qed.

Lemma memset_agree (st1 st2 : regs E) :
  0 <= hLen ->
  r_world st1 = r_world st2 ->
  agree_T (Z.to_nat hLen)
    {| r_world := r_world st1; r_U := r_U st1;
       r_T := memset (r_T st1) 0 (Z.to_nat hLen) |}
    {| r_world := r_world st2; r_U := r_U st2;
       r_T := memset (r_T st2) 0 (Z.to_nat hLen) |}.
Proof.
  intros Hh Hw. unfold agree_T, memset. simpl.
  split; [exact Hw|].
  rewrite !take_app_le by (rewrite length_replicate; lia).
  split; [reflexivity|].
  rewrite !length_app, !length_replicate. lia.
Qed.

Lemma bytes_at_agree (a b : regs E) k :
  agree_T (Z.to_nat hLen) a b -> (k <= Z.to_nat hLen)%nat ->
  bytes_at (r_T a) k = bytes_at (r_T b) k.
Proof.
  intros (_ & HT & Hl1 & Hl2) Hk.
  rewrite !bytes_at_take by lia.
  replace k with (Nat.min k (Z.to_nat hLen)) by lia.
  rewrite <- !take_take. rewrite HT. reflexivity.
Qed.

(** The loop on [i], likewise: the result of a run that returns is the
    result of every run with no less fuel, whatever [U] and [T] held. *)
Lemma loop_i_agree fuel1 : forall fuel2 fuel_u1 fuel_u2 i st1 st2 m log res,
  0 <= hLen -> 0 <= r <= hLen ->
  (fuel1 <= fuel2)%nat -> (fuel_u1 <= fuel_u2)%nat ->
  r_world st1 = r_world st2 ->
  loop_i E PRF P S c hLen l r fuel1 fuel_u1 i st1 m log = Returned res ->
  loop_i E PRF P S c hLen l r fuel2 fuel_u2 i st2 m log = Returned res.
Proof.
  induction fuel1 as [|fuel1 IH];
    intros fuel2 fuel_u1 fuel_u2 i st1 st2 m log res Hh Hr Hle Hleu Hw H;
    simpl in H.
  - discriminate.
  - destruct fuel2 as [|fuel2]; [lia|]. simpl.
    destruct (uint i <=? l).
    + pose proof (loop_u_agree fuel_u1 fuel_u2 i 1 _ _ Hleu
                    (memset_agree st1 st2 Hh Hw) ltac:(congruence)) as Hu.
      destruct (loop_u E PRF P S c hLen fuel_u1 i 1 _) as [a|w|].
      * destruct Hu as (b & -> & Hab).
        unfold store_DK in *. unfold memcpy in *.
        rewrite <- (bytes_at_agree a b);
          [|exact Hab|destruct (uint i =? l); lia].
        eapply IH; try eassumption; [lia|apply Hab].
      * rewrite Hu. exact H.
      * discriminate.
    + rewrite <- Hw. exact H.
Qed.

End Agreement.

Lemma pbkdf2_agree (E : externals) fuel1 fuel2 w U1 T1 U2 T2 m PRF c dkLen res :
  0 <= dkLen < 2 ^ 32 -> (fuel1 <= fuel2)%nat ->
  _gnutls_pkcs5_pbkdf2 E fuel1 w U1 T1 m PRF c dkLen = Returned res ->
  _gnutls_pkcs5_pbkdf2 E fuel2 w U2 T2 m PRF c dkLen = Returned res.
Proof.
  intros Hd Hle H. unfold _gnutls_pkcs5_pbkdf2 in *.
  set (hLen := uint (gcry_md_get_algo_dlen E PRF)) in *.
  pose proof (uint_range (gcry_md_get_algo_dlen E PRF)) as Hr. fold hLen in Hr.
  destruct (Z.eqb_spec hLen 0); simpl in *; [exact H|].
  destruct (hLen >? MAX_PRF_BLOCK_LEN); [exact H|].
  destruct (c =? 0); [exact H|].
  destruct (Z.eqb_spec dkLen 0); [exact H|].
  destruct (dkLen >? 4294967295); [exact H|].
  destruct (gcry_md_open E w PRF) as [w1 err].
  destruct (negb (err =? 0)); [exact H|].
  pose proof (last_len_spec dkLen hLen ltac:(lia) ltac:(lia)) as [_ Hlast].
  eapply loop_i_agree; [| |exact Hle|exact Hle| |exact H]; simpl; try lia.
  reflexivity.
Qed.

(** ** When the collaborators compute a pseudorandom function *)

Section Hmac.

Variable E : externals.
Variable PRF : Z.
Variable prf : list Z -> list Z -> list Z.
Variable w0 : world E.
Variable idle : world E -> Prop.
Variable keyed : list Z -> world E -> Prop.
Hypothesis Hprf : hmac_protocol E PRF prf w0 idle keyed.

Variables (P S : list Z) (c : Z).

Let hLen := uint (gcry_md_get_algo_dlen E PRF).
Let h := Z.to_nat hLen.

Lemma prf_length key text : length (prf key text) = h.
Proof.
  pose proof (prf_len _ _ _ _ _ _ Hprf key text) as H. subst h hLen. lia.
Qed.

Lemma U_chain_length i k : length (U_chain prf P S i k) = h.
Proof. destruct k; simpl; apply prf_length. Qed.

Lemma iteration_hmac i k st acc Tt :
  0 <= i < 2 ^ 32 ->
  idle (r_world st) -> r_T st = acc ++ Tt -> length acc = h ->
  (k <> 0%nat -> bytes_at (r_U st) h = U_chain prf P S i (Nat.pred k)) ->
  exists st',
    iteration E PRF P S hLen i (Z.of_nat k + 1) st = inl st' /\
    idle (r_world st') /\
    r_T st' = xor_bytes acc (U_chain prf P S i k) ++ Tt /\
    bytes_at (r_U st') h = U_chain prf P S i k.
Proof.
  intros Hi Hidle HT Hacc HU. unfold iteration.
  destruct (setkey_ok _ _ _ _ _ _ Hprf (r_world st) P Hidle) as (w1 & -> & Hk).
  simpl.
  assert (Hfed : exists text,
    (if Z.of_nat k + 1 =? 1
     then if gnutls_alloca E w1 (Z.of_nat (length S) + 4)
          then Some (gcry_md_write E w1 (S ++ INT i)) else None
     else Some (gcry_md_write E w1 (bytes_at (r_U st) (Z.to_nat hLen))))
    = Some (gcry_md_write E w1 text) /\ prf P text = U_chain prf P S i k).
  { destruct k as [|k].
    - exists (S ++ INT i). simpl.
      rewrite (alloca_ok _ _ _ _ _ _ Hprf w1 P _ Hk).
      rewrite INT_is_INT32_BE by exact Hi. split; reflexivity.
    - exists (U_chain prf P S i k).
      destruct (Z.eqb_spec (Z.of_nat (Datatypes.S k) + 1) 1); [lia|].
      fold h. rewrite HU by discriminate. split; reflexivity. }
  destruct Hfed as (text & -> & Htext).
  destruct (read_ok _ _ _ _ _ _ Hprf w1 P text Hk) as (w2 & -> & Hidle2).
  rewrite Htext. fold h.
  assert (Hcopy : memcpy (r_U st) 0 (U_chain prf P S i k) h
                  = U_chain prf P S i k ++ drop h (r_U st)).
  { unfold memcpy. rewrite take_0. simpl.
    rewrite bytes_at_take by (rewrite U_chain_length; lia).
    rewrite take_ge by (rewrite U_chain_length; lia). reflexivity. }
  eexists. split; [reflexivity|]. simpl.
  split; [exact Hidle2|]. rewrite Hcopy, HT. split.
  - apply xor_into_zip; [exact Hacc|apply U_chain_length].
  - apply bytes_at_app, U_chain_length.
Qed.

Lemma xor_bytes_length acc u : length acc = h -> length u = h ->
  length (xor_bytes acc u) = h.
Proof. intros H1 H2. unfold xor_bytes. rewrite length_zip_with. lia. Qed.

Lemma iterate_hmac n : forall i k st acc Tt,
  0 <= i < 2 ^ 32 ->
  idle (r_world st) -> r_T st = acc ++ Tt -> length acc = h ->
  (k <> 0%nat -> bytes_at (r_U st) h = U_chain prf P S i (Nat.pred k)) ->
  exists st',
    iterate E PRF P S hLen n i (Z.of_nat k + 1) st = inl st' /\
    idle (r_world st') /\
    r_T st' = fold_left xor_bytes (map (U_chain prf P S i) (seq k n)) acc ++ Tt /\
    length (fold_left xor_bytes (map (U_chain prf P S i) (seq k n)) acc) = h.
Proof.
  induction n as [|n IH]; intros i k st acc Tt Hi Hidle HT Hacc HU; simpl.
  - exists st. repeat split; assumption.
  - destruct (iteration_hmac i k st acc Tt Hi Hidle HT Hacc HU)
      as (st1 & -> & Hidle1 & HT1 & HU1).
    replace (Z.of_nat k + 1 + 1) with (Z.of_nat (Datatypes.S k) + 1) by lia.
    apply IH; try assumption.
    + apply xor_bytes_length; [exact Hacc|apply U_chain_length].
    + intros _. exact HU1.
Qed.

(** One round leaves [F (P, S, c, i)] in [T]. *)
Lemma block_hmac i st :
  0 <= c -> 0 <= i < 2 ^ 32 -> idle (r_world st) ->
  exists st', block E PRF P S c hLen i st = inl st' /\
    idle (r_world st') /\
    bytes_at (r_T st') h = F prf hLen P S c i.
Proof.
  intros Hc Hi Hidle. unfold block.
  destruct (iterate_hmac (Z.to_nat c) i 0
              {| r_world := r_world st; r_U := r_U st;
                 r_T := memset (r_T st) 0 (Z.to_nat hLen) |}
              (replicate h 0) (drop h (r_T st)) Hi Hidle)
    as (st' & Hit & Hidle' & HT & Hlen).
  - reflexivity.
  - apply length_replicate.
  - intros Hk. congruence.
  - simpl in Hit. exists st'. split; [exact Hit|]. split; [exact Hidle'|].
    rewrite HT. unfold F. fold h. apply bytes_at_app. exact Hlen.
Qed.

Lemma F_length i : 0 <= c -> 0 <= i < 2 ^ 32 -> length (F prf hLen P S c i) = h.
Proof.
  intros Hc Hi. unfold F. fold h.
  destruct (open_ok _ _ _ _ _ _ Hprf) as (w & _ & Hidle).
  destruct (iterate_hmac (Z.to_nat c) i 0
              {| r_world := w; r_U := []; r_T := replicate h 0 ++ [] |}
              (replicate h 0) [] Hi Hidle eq_refl (length_replicate _ _))
    as (st' & _ & _ & _ & Hlen).
  - intros Hk. congruence.
  - exact Hlen.
Qed.

Lemma block_values_hmac l r n : forall i st,
  0 <= c -> 1 <= i -> i + Z.of_nat n <= 2 ^ 32 -> idle (r_world st) ->
  block_values E PRF P S c hLen n i st
    = Some (map (F prf hLen P S c) (seqZ i (Z.of_nat n))) /\
  forall m log, rc (blocks E PRF P S c hLen l r n i st m log) = PKCS5_OK.
Proof.
  induction n as [|n IH]; intros i st Hc Hi Hn Hidle; simpl.
  - split; reflexivity.
  - destruct (block_hmac i st Hc ltac:(lia) Hidle) as (st' & -> & Hidle' & HT).
    destruct (IH (i + 1) st' Hc ltac:(lia) ltac:(lia) Hidle') as [-> Hrc].
    split; [|intros m log; apply Hrc].
    fold h. rewrite HT.
    rewrite (seqZ_cons i) by lia. simpl map.
    replace (Z.pred (Z.of_nat (Datatypes.S n))) with (Z.of_nat n) by lia.
    replace (Z.succ i) with (i + 1) by lia. reflexivity.
Qed.

End Hmac.

(** ** The copies stay within [dkLen] bytes *)

Lemma bytes_copied_app log1 log2 :
  bytes_copied (log1 ++ log2) = bytes_copied log1 + bytes_copied log2.
Proof.
  induction log1 as [|w log1 IH]; simpl; [reflexivity|]. rewrite IH. lia.
Qed.

Lemma same_but_DK_refl dkLen m : same_but_DK dkLen m m.
Proof. repeat split. Qed.

Lemma same_but_DK_store dkLen m m' off src n :
  same_but_DK dkLen m m' ->
  (off + n <= Z.to_nat dkLen)%nat -> (Z.to_nat dkLen <= length (mem_DK m))%nat ->
  same_but_DK dkLen m (store_DK m' off src n).
Proof.
  intros (HP & HS & Hlen & Hdrop) Hfit Hbuf. unfold same_but_DK, store_DK. simpl.
  split; [exact HP|]. split; [exact HS|].
  rewrite length_memcpy by lia. split; [exact Hlen|].
  rewrite drop_memcpy by lia. exact Hdrop.
Qed.

Section Safety.

Variable E : externals.
Variables (PRF : Z) (P S : list Z) (c hLen l r dkLen : Z).

Hypothesis HhLen : 1 <= hLen.
Hypothesis Hr : 1 <= r <= hLen.
Hypothesis HdkLen : dkLen = (l - 1) * hLen + r.
Hypothesis HdkLen32 : dkLen < 2 ^ 32.
Hypothesis Hl : 1 <= l < 2 ^ 32 - 1.

(** At every point the loop on [i] can reach, with any fuel and whatever
    the collaborators do: the copies made lie in the first [dkLen] bytes,
    the rest of the caller's memory is as it was, and the bytes copied are
    [dkLen] when [PKCS5_OK] is returned and fewer on an error. *)
Lemma loop_i_safe fuel : forall fuel_u i st m0 m log,
  1 <= uint i <= l + 1 ->
  (Z.to_nat dkLen <= length (mem_DK m0))%nat ->
  same_but_DK dkLen m0 m -> confined dkLen log ->
  bytes_copied log = Z.min ((uint i - 1) * hLen) dkLen ->
  match loop_i E PRF P S c hLen l r fuel fuel_u i st m log with
  | Returned res =>
    same_but_DK dkLen m0 (mem res) /\ confined dkLen (written res) /\
    (rc res = PKCS5_OK -> bytes_copied (written res) = dkLen) /\
    (rc res <> PKCS5_OK -> bytes_copied (written res) < dkLen)
  | OutOfFuel m' log' => same_but_DK dkLen m0 m' /\ confined dkLen log'
  end.
Proof.
  induction fuel as [|fuel IH]; intros fuel_u i st m0 m log Hi Hbuf Hm Hlog Hsum;
    simpl.
  - split; assumption.
  - destruct (Z.leb_spec (uint i) l) as [Hle|Hgt].
    + destruct (loop_u E PRF P S c hLen fuel_u i 1 _) as [st'|w|].
      * assert (Hprev : uint (sint (i - 1)) = uint i - 1).
        { rewrite uint_sint. unfold uint in *.
          rewrite Zminus_mod. rewrite (Z.mod_small 1) by lia.
          apply Z.mod_small. lia. }
        assert (Hnext : uint (sint (i + 1)) = uint i + 1).
        { rewrite uint_sint. unfold uint in *.
          rewrite Zplus_mod. rewrite (Z.mod_small 1) by lia.
          apply Z.mod_small. lia. }
        rewrite Hprev.
        assert (Hmul : 0 <= (uint i - 1) * hLen <= (l - 1) * hLen).
        { split; [apply Z.mul_nonneg_nonneg; lia|].
          apply Z.mul_le_mono_nonneg_r; lia. }
        rewrite (uint_small ((uint i - 1) * hLen)) by lia.
        set (n := if uint i =? l then r else hLen).
        assert (Hn : 0 <= n /\ (uint i - 1) * hLen + n <= dkLen /\
                     (uint i - 1) * hLen + n = Z.min (uint i * hLen) dkLen).
        { subst n. destruct (Z.eqb_spec (uint i) l) as [->|]; nia. }
        apply IH.
        -- lia.
        -- exact Hbuf.
        -- apply same_but_DK_store; [exact Hm|nia|exact Hbuf].
        -- apply Forall_app. split; [exact Hlog|].
           constructor; [simpl; nia|constructor].
        -- rewrite bytes_copied_app, Hsum, Hnext. simpl.
           replace (uint i + 1 - 1) with (uint i) by lia. nia.
      * simpl. split; [exact Hm|]. split; [exact Hlog|].
        split; [discriminate|]. intros _. rewrite Hsum. nia.
      * split; assumption.
    + simpl. split; [exact Hm|]. split; [exact Hlog|].
      split; [|congruence]. intros _. rewrite Hsum. nia.
Qed.

End Safety.

(** ** Runs of the loop on [i] that do not reach its end *)

Section Steps.

Variable E : externals.
Variables (PRF : Z) (P S : list Z) (c hLen l r : Z).

Lemma loop_i_steps n : forall fuel fuel_u i st m log,
  0 <= c < 2 ^ 32 - 1 -> 0 <= hLen -> (l - 1) * hLen < 2 ^ 32 ->
  l <= 2 ^ 32 - 1 -> 1 <= i -> i + Z.of_nat n <= l + 1 ->
  (Z.to_nat c < fuel_u)%nat ->
  loop_i E PRF P S c hLen l r (n + fuel) fuel_u (sint i) st m log
  = match rounds E PRF P S c hLen l r n i st m log with
    | inl (st', m', log') =>
      loop_i E PRF P S c hLen l r fuel fuel_u (sint (i + Z.of_nat n)) st' m' log'
    | inr res => Returned res
    end.
Proof.
  induction n as [|n IH]; intros fuel fuel_u i st m log Hc Hh Hoff Hl Hi Hn Hfu.
  - simpl. rewrite Z.add_0_r. reflexivity.
  - change (Datatypes.S n + fuel)%nat with (Datatypes.S (n + fuel)).
    cbn [loop_i rounds].
    assert (Hu : uint (sint i) = i) by (rewrite uint_sint; apply uint_small; lia).
    rewrite Hu.
    destruct (Z.leb_spec i l); [|lia].
    rewrite (loop_u_run E PRF P S c hLen (Z.to_nat c)) by lia.
    unfold block. rewrite iterate_uint. cbn [r_world r_U r_T]. rewrite Hu.
    destruct (iterate E PRF P S hLen (Z.to_nat c) i 1 _) as [st'|w]; [|reflexivity].
    replace (sint i - 1) with (sint i + -1) by lia.
    rewrite uint_sint_add.
    rewrite (uint_small (i + -1)) by lia.
    rewrite (uint_small ((i + -1) * hLen)) by nia.
    rewrite sint_sint_add.
    rewrite IH by lia.
    replace (i + -1) with (i - 1) by lia.
    replace (i + 1 + Z.of_nat n) with (i + Z.of_nat (Datatypes.S n)) by lia.
    reflexivity.
Qed.

End Steps.

(** ** More on collaborators that compute a pseudorandom function *)

Section HmacRuns.

Variable E : externals.
Variable PRF : Z.
Variable prf : list Z -> list Z -> list Z.
Variable w0 : world E.
Variable idle : world E -> Prop.
Variable keyed : list Z -> world E -> Prop.
Hypothesis Hprf : hmac_protocol E PRF prf w0 idle keyed.

Variables (P S : list Z) (c hLen l r : Z).

(** No iteration fails, whatever it is fed. *)
Lemma iteration_idle i u st :
  idle (r_world st) ->
  exists st', iteration E PRF P S hLen i u st = inl st' /\ idle (r_world st').
Proof.
  intros Hidle. unfold iteration.
  destruct (setkey_ok _ _ _ _ _ _ Hprf (r_world st) P Hidle) as (w1 & -> & Hk).
  simpl.
  assert (Hfed : exists text,
    (if u =? 1
     then if gnutls_alloca E w1 (Z.of_nat (length S) + 4)
          then Some (gcry_md_write E w1 (S ++ INT i)) else None
     else Some (gcry_md_write E w1 (bytes_at (r_U st) (Z.to_nat hLen))))
    = Some (gcry_md_write E w1 text)).
  { destruct (u =? 1); [|eexists; reflexivity].
    rewrite (alloca_ok _ _ _ _ _ _ Hprf w1 P _ Hk). eexists; reflexivity. }
  destruct Hfed as (text & ->).
  destruct (read_ok _ _ _ _ _ _ Hprf w1 P text Hk) as (w2 & -> & Hidle2).
  eexists. split; [reflexivity|]. exact Hidle2.
Qed.

(** With [c = UINT_MAX] the loop on [u] then uses up any fuel. *)
Lemma loop_u_spins fuel : forall i u st,
  2 ^ 32 - 1 <= c -> 0 <= u < 2 ^ 32 -> idle (r_world st) ->
  loop_u E PRF P S c hLen fuel i u st = IterOutOfFuel E.
Proof.
  induction fuel as [|fuel IH]; intros i u st Hc Hu Hidle; simpl.
  - reflexivity.
  - destruct (Z.leb_spec u c); [|lia].
    destruct (iteration_idle i u st Hidle) as (st' & -> & Hidle').
    apply IH; [exact Hc|apply uint_range|exact Hidle'].
Qed.

Lemma iterate_idle n : forall i u st,
  idle (r_world st) ->
  exists st', iterate E PRF P S hLen n i u st = inl st' /\ idle (r_world st').
Proof.
  induction n as [|n IH]; intros i u st Hidle; simpl.
  - exists st. split; [reflexivity|exact Hidle].
  - destruct (iteration_idle i u st Hidle) as (st' & -> & Hidle').
    apply IH. exact Hidle'.
Qed.

(** No round fails. *)
Lemma rounds_hmac n : forall i st m log,
  idle (r_world st) ->
  exists st' m',
    rounds E PRF P S c hLen l r n i st m log
    = inl (st', m', log ++ copies hLen l r n i) /\ idle (r_world st').
Proof.
  induction n as [|n IH]; intros i st m log Hidle; simpl.
  - exists st, m. rewrite app_nil_r. split; [reflexivity|exact Hidle].
  - unfold block.
    destruct (iterate_idle (Z.to_nat c) i 1
                {| r_world := r_world st; r_U := r_U st;
                   r_T := memset (r_T st) 0 (Z.to_nat hLen) |} Hidle)
      as (st' & -> & Hidle').
    destruct (IH (i + 1) st'
                (store_DK m (Z.to_nat ((i - 1) * hLen)) (r_T st')
                   (Z.to_nat (block_len hLen l r i)))
                (log ++ [((i - 1) * hLen, block_len hLen l r i)]) Hidle')
      as (st'' & m'' & -> & Hidle'').
    exists st'', m''. rewrite <- app_assoc. split; [reflexivity|exact Hidle''].
Qed.

End HmacRuns.

(** ** The accumulators of the rounds *)

Section BlockValues.

Variable E : externals.
Variables (PRF : Z) (P S : list Z) (c hLen : Z).

Lemma block_values_shape n : forall i st Ts,
  block_values E PRF P S c hLen n i st = Some Ts ->
  length Ts = n /\ Forall (fun T => length T = Z.to_nat hLen) Ts.
Proof.
  induction n as [|n IH]; intros i st Ts H; simpl in H.
  - inversion H. split; [reflexivity|constructor].
  - destruct (block E PRF P S c hLen i st) as [st'|w]; [|discriminate].
    destruct (block_values E PRF P S c hLen n (i + 1) st') as [Ts'|] eqn:HTs;
      [|discriminate].
    inversion H; subst. destruct (IH _ _ _ HTs) as [Hlen Hall].
    split; [simpl; lia|]. constructor; [apply length_bytes_at|exact Hall].
Qed.

(** The rounds do not depend on how many follow. *)
Lemma block_values_prefix n k : forall i st Ts,
  block_values E PRF P S c hLen (n + k) i st = Some Ts ->
  block_values E PRF P S c hLen n i st = Some (take n Ts).
Proof.
  induction n as [|n IH]; intros i st Ts H; simpl in *.
  - rewrite take_0. reflexivity.
  - destruct (block E PRF P S c hLen i st) as [st'|w]; [|discriminate].
    destruct (block_values E PRF P S c hLen (n + k) (i + 1) st') as [Ts'|] eqn:HTs;
      [|discriminate].
    inversion H; subst. rewrite (IH _ _ _ HTs). reflexivity.
Qed.

Lemma length_concat_blocks (h : nat) (Ts : list (list Z)) :
  Forall (fun T => length T = h) Ts ->
  length (concat Ts) = (length Ts * h)%nat.
Proof.
  induction 1 as [|T Ts HT _ IH]; simpl; [reflexivity|].
  rewrite length_app, IH, HT. reflexivity.
Qed.

End BlockValues.

(** ** The list of copies *)

Lemma copies_lookup hLen l r n : forall i (j : nat),
  (j < n)%nat ->
  copies hLen l r n i !! j
  = Some ((i + Z.of_nat j - 1) * hLen, block_len hLen l r (i + Z.of_nat j)).
Proof.
  induction n as [|n IH]; intros i j Hj; [lia|].
  destruct j as [|j]; simpl.
  - rewrite Z.add_0_r. reflexivity.
  - rewrite IH by lia. do 3 f_equal; lia.
Qed.

Lemma length_copies hLen l r n : forall i, length (copies hLen l r n i) = n.
Proof. induction n as [|n IH]; intros i; simpl; [reflexivity|]. rewrite IH. reflexivity. Qed.

(** Copies of rounds before the last move [hLen] bytes each. *)
Lemma bytes_copied_whole hLen l r n : forall i,
  i + Z.of_nat n <= l ->
  bytes_copied (copies hLen l r n i) = Z.of_nat n * hLen.
Proof.
  induction n as [|n IH]; intros i Hn; simpl; [reflexivity|].
  rewrite IH by lia. unfold block_len.
  destruct (Z.eqb_spec i l); lia.
Qed.

(** The copies of all [l] rounds move [(l - 1) * hLen + r] bytes. *)
Lemma bytes_copied_all hLen l r :
  1 <= l ->
  bytes_copied (copies hLen l r (Z.to_nat l) 1) = (l - 1) * hLen + r.
Proof.
  intros Hl.
  replace (Z.to_nat l) with (Z.to_nat (l - 1) + 1)%nat by lia.
  rewrite copies_app, bytes_copied_app.
  rewrite bytes_copied_whole by lia. simpl.
  unfold block_len.
  destruct (Z.eqb_spec (1 + Z.of_nat (Z.to_nat (l - 1))) l); lia.
Qed.

Lemma blocks_untouched (E : externals) PRF P S c hLen l r n i st m log :
  let res := blocks E PRF P S c hLen l r n i st m log in
  written res = log -> rc res <> PKCS5_OK -> mem res = m.
Proof.
  destruct n as [|n]; simpl.
  - congruence.
  - destruct (block E PRF P S c hLen i st) as [st'|w]; [|reflexivity].
    intros Hw _. exfalso.
    match type of Hw with written (blocks _ _ _ _ _ _ _ _ ?n ?i ?st ?m ?lg) = _ =>
      destruct (blocks_shape E PRF P S c hLen l r n i st m lg) as (_ & _ & k & Hk & _) end.
    rewrite Hk in Hw.
    apply (f_equal (@length _)) in Hw.
    rewrite !length_app in Hw. simpl in Hw. lia.
Qed.

(** ** Return codes of the whole function *)

(** A [dkLen] that fits [unsigned int] never meets the guard
    [dkLen > 4294967295U]. *)
Lemma pbkdf2_codes (E : externals) fuel w U0 T0 m PRF c dkLen res :
  dkLen <= 4294967295 ->
  _gnutls_pkcs5_pbkdf2 E fuel w U0 T0 m PRF c dkLen = Returned res ->
  rc res <> PKCS5_DERIVED_KEY_TOO_LONG.
Proof.
  intros Hd H. unfold _gnutls_pkcs5_pbkdf2 in H.
  destruct (_ || _); [inversion H; subst; discriminate|].
  destruct (c =? 0); [inversion H; subst; discriminate|].
  destruct (dkLen =? 0); [inversion H; subst; discriminate|].
  destruct (Z.gtb_spec dkLen 4294967295); [lia|].
  destruct (gcry_md_open E w PRF) as [w1 err].
  destruct (negb (err =? 0)); [inversion H; subst; discriminate|].
  apply loop_i_codes in H. destruct H as [[-> _] | [-> _]]; discriminate.
Qed.

(** ** The small instance *)

Lemma toy_protocol d PRF :
  0 <= d < 2 ^ 32 ->
  hmac_protocol (Toy.good d) PRF (Toy.checksum d) Toy.fresh
    (fun _ => True)
    (fun k w => Toy.key w = k /\ Toy.text w = [] /\ Toy.keyings w <> 0%nat).
Proof.
  intros Hd. constructor.
  - exists Toy.fresh. split; [reflexivity|exact I].
  - intros w k _. eexists. split; [reflexivity|]. simpl. repeat split. lia.
  - intros w k n _. reflexivity.
  - intros w k t (Hk & Ht & Hn). eexists. split; [|exact I]. simpl.
    rewrite Hk, Ht. simpl.
    destruct (Nat.eqb_spec (Toy.keyings w) 0); [contradiction|reflexivity].
  - intros k t. simpl. rewrite uint_small by exact Hd.
    unfold Toy.checksum. rewrite length_map, length_seqZ. lia.
Qed.

Lemma toy_hmac_ok d PRF :
  0 <= d < 2 ^ 32 -> hmac_ok (Toy.good d) PRF (Toy.checksum d) Toy.fresh.
Proof. intros Hd. eexists _, _. apply toy_protocol. exact Hd. Qed.

(** ** The derived key *)

Section DerivedKey.

Variable E : externals.
Variable PRF : Z.
Variable prf : list Z -> list Z -> list Z.
Variable w : world E.
Hypothesis Hok : hmac_ok E PRF prf w.

Let hLen := uint (gcry_md_get_algo_dlen E PRF).

Lemma PBKDF2_length P S c dkLen :
  1 <= hLen -> 0 <= c -> 1 <= dkLen < 2 ^ 32 ->
  length (PBKDF2 prf hLen P S c dkLen) = Z.to_nat dkLen.
Proof.
  intros Hh Hc Hd. destruct Hok as (idle & keyed & Hprf).
  unfold PBKDF2. rewrite length_take.
  rewrite <- (block_count_ceil dkLen hLen Hh Hd).
  pose proof (block_count_spec dkLen hLen Hh Hd) as [H1 H2].
  rewrite (length_concat_blocks (Z.to_nat hLen)).
  - rewrite length_map, length_seqZ. nia.
  - apply Forall_forall. intros T HT.
    change (T ∈ F prf hLen P S c <$> seqZ 1 (block_count dkLen hLen)) in HT.
    apply list_elem_of_fmap in HT.
    destruct HT as (i & -> & Hi).
    apply elem_of_seqZ in Hi.
    apply (F_length E PRF prf w idle keyed Hprf); lia.
Qed.

(** With collaborators that compute [prf], the fuel-free reading of a call
    with valid parameters returns [PKCS5_OK], has closed the handle, has
    made the copy of each of the [l] rounds and has put the derived key of
    PKCS#5 in front of what [DK] held past [dkLen]. *)
Lemma run_hmac U0 T0 m c dkLen :
  1 <= hLen <= MAX_PRF_BLOCK_LEN -> 1 <= c -> 1 <= dkLen < 2 ^ 32 ->
  let l := block_count dkLen hLen in
  let r := last_len dkLen hLen l in
  let res := run E w U0 T0 m PRF c dkLen in
  rc res = PKCS5_OK /\ handle res = md_closed /\
  mem_P (mem res) = mem_P m /\ mem_S (mem res) = mem_S m /\
  written res = copies hLen l r (Z.to_nat l) 1 /\
  mem_DK (mem res)
  = PBKDF2 prf hLen (mem_P m) (mem_S m) c dkLen ++ drop (Z.to_nat dkLen) (mem_DK m).
Proof.
  intros Hh Hc Hd l r. destruct Hok as (idle & keyed & Hprf).
  unfold run. fold hLen. fold l. fold r.
  pose proof (block_count_spec dkLen hLen ltac:(lia) Hd) as [H1 H2]. fold l in H1, H2.
  pose proof (last_len_spec dkLen hLen ltac:(lia) Hd) as [H3 H4].
  fold l in H3, H4. fold r in H3, H4.
  destruct (Z.eqb_spec hLen 0); [lia|].
  destruct (Z.gtb_spec hLen MAX_PRF_BLOCK_LEN); [lia|]. simpl orb. cbv iota.
  destruct (Z.eqb_spec c 0); [lia|].
  destruct (Z.eqb_spec dkLen 0); [lia|].
  destruct (Z.gtb_spec dkLen 4294967295); [lia|].
  destruct (open_ok _ _ _ _ _ _ Hprf) as (w1 & -> & Hidle).
  simpl negb. cbv iota.
  set (st := {| r_world := w1; r_U := U0; r_T := T0 |}).
  destruct (block_values_hmac E PRF prf w idle keyed Hprf (mem_P m) (mem_S m) c
              l r (Z.to_nat l) 1 st ltac:(lia) ltac:(lia) ltac:(lia) Hidle)
    as [Hvals Hrc].
  destruct (blocks_shape E PRF (mem_P m) (mem_S m) c hLen l r (Z.to_nat l) 1 st m [])
    as (HP & HS & k & Hw & Hk).
  rewrite Hrc in Hk.
  destruct Hk as [(_ & Hclosed & ->)|(Habs & _)]; [|discriminate].
  split; [apply Hrc|]. split; [exact Hclosed|].
  split; [exact HP|]. split; [exact HS|]. split; [exact Hw|].
  destruct m as [mP mS mDK]. simpl mem_P in *. simpl mem_S in *. simpl mem_DK.
  destruct (blocks_ok_mem E PRF mP mS c hLen l r (Z.to_nat l) 1 st [] mDK mP mS []
              ltac:(lia) H4 ltac:(lia) ltac:(lia) ltac:(simpl; lia) (Hrc _ _))
    as (Ts & HTs & Hmem).
  simpl app in Hmem. rewrite Hmem.
  fold hLen in Hvals. rewrite Hvals in HTs. inversion HTs; subst Ts.
  replace ((l - 1) * hLen + r) with dkLen by lia.
  unfold PBKDF2. rewrite <- (block_count_ceil dkLen hLen) by lia. fold l.
  rewrite Z2Nat.id by lia. reflexivity.
Qed.

(** With [c = UINT_MAX] such a call uses up any fuel in its first round. *)
Lemma pbkdf2_spins fuel U0 T0 m c dkLen :
  1 <= hLen <= MAX_PRF_BLOCK_LEN -> 2 ^ 32 - 1 <= c ->
  1 <= dkLen < 2 ^ 32 ->
  _gnutls_pkcs5_pbkdf2 E fuel w U0 T0 m PRF c dkLen = OutOfFuel m [].
Proof.
  intros Hh Hc Hd. destruct Hok as (idle & keyed & Hprf).
  unfold _gnutls_pkcs5_pbkdf2. fold hLen.
  pose proof (block_count_spec dkLen hLen ltac:(lia) Hd) as [H1 H2].
  destruct (Z.eqb_spec hLen 0); [lia|].
  destruct (Z.gtb_spec hLen MAX_PRF_BLOCK_LEN); [lia|]. simpl orb. cbv iota.
  destruct (Z.eqb_spec c 0); [lia|].
  destruct (Z.eqb_spec dkLen 0); [lia|].
  destruct (Z.gtb_spec dkLen 4294967295); [lia|].
  destruct (open_ok _ _ _ _ _ _ Hprf) as (w1 & -> & Hidle).
  simpl negb. cbv iota.
  destruct fuel as [|fuel]; [reflexivity|].
  cbn [loop_i]. rewrite (uint_small 1) by lia.
  destruct (Z.leb_spec 1 (block_count dkLen hLen)); [|lia].
  rewrite (loop_u_spins E PRF prf w idle keyed Hprf); try lia; [reflexivity|].
  exact Hidle.
Qed.

End DerivedKey.

(** * The claims *)

(** C3.  The parameter checks are made in a fixed order, before the
    context is opened: an [hLen] of zero or above [MAX_PRF_BLOCK_LEN]
    returns [PKCS5_INVALID_PRF]; otherwise an iteration count of zero
    returns [PKCS5_INVALID_ITERATION_COUNT]; otherwise a [dkLen] of zero
    returns [PKCS5_INVALID_DERIVED_KEY_LENGTH]; the three codes differ.  In
    each case the handle was never opened, the collaborators' state and the
    caller's memory are what they were and nothing was copied, whatever the
    other parameters and the fuel. *)
Theorem checks_in_order (E : externals) fuel w U0 T0 m PRF c dkLen :
  let hLen := uint (gcry_md_get_algo_dlen E PRF) in
  let stopped code :=
    Returned {| rc := code; handle := md_unopened; final_world := w;
                mem := m; written := [] |} in
  ((hLen = 0 \/ MAX_PRF_BLOCK_LEN < hLen) ->
     _gnutls_pkcs5_pbkdf2 E fuel w U0 T0 m PRF c dkLen
     = stopped PKCS5_INVALID_PRF) /\
  (1 <= hLen <= MAX_PRF_BLOCK_LEN -> c = 0 ->
     _gnutls_pkcs5_pbkdf2 E fuel w U0 T0 m PRF c dkLen
     = stopped PKCS5_INVALID_ITERATION_COUNT) /\
  (1 <= hLen <= MAX_PRF_BLOCK_LEN -> c <> 0 -> dkLen = 0 ->
     _gnutls_pkcs5_pbkdf2 E fuel w U0 T0 m PRF c dkLen
     = stopped PKCS5_INVALID_DERIVED_KEY_LENGTH) /\
  PKCS5_INVALID_PRF <> PKCS5_INVALID_ITERATION_COUNT /\
  PKCS5_INVALID_PRF <> PKCS5_INVALID_DERIVED_KEY_LENGTH /\
  PKCS5_INVALID_ITERATION_COUNT <> PKCS5_INVALID_DERIVED_KEY_LENGTH.
Proof.
  intros hLen stopped. unfold _gnutls_pkcs5_pbkdf2. fold hLen.
  pose proof (uint_range (gcry_md_get_algo_dlen E PRF)) as Hr. fold hLen in Hr.
  repeat split; try discriminate.
  - intros [H0|Hmax].
    + rewrite H0. reflexivity.
    + destruct (hLen =? 0); [reflexivity|].
      destruct (Z.gtb_spec hLen MAX_PRF_BLOCK_LEN); [reflexivity|lia].
  - intros Hh ->.
    destruct (Z.eqb_spec hLen 0); [lia|].
    destruct (Z.gtb_spec hLen MAX_PRF_BLOCK_LEN); [lia|]. reflexivity.
  - intros Hh Hc ->.
    destruct (Z.eqb_spec hLen 0); [lia|].
    destruct (Z.gtb_spec hLen MAX_PRF_BLOCK_LEN); [lia|].
    destruct (Z.eqb_spec c 0); [contradiction|]. reflexivity.
Qed.

Lemma checks_in_order_witness :
  _gnutls_pkcs5_pbkdf2 (Toy.good 81) 5 Toy.fresh [] [] (Toy.caller [1] [2] 4) 0 0 0
  = Returned (Build_result (Toy.good 81) PKCS5_INVALID_PRF md_unopened
                Toy.fresh (Toy.caller [1] [2] 4) []) /\
  _gnutls_pkcs5_pbkdf2 (Toy.good 3) 5 Toy.fresh [] [] (Toy.caller [1] [2] 4) 0 0 0
  = Returned (Build_result (Toy.good 3) PKCS5_INVALID_ITERATION_COUNT md_unopened
                Toy.fresh (Toy.caller [1] [2] 4) []) /\
  _gnutls_pkcs5_pbkdf2 (Toy.good 3) 5 Toy.fresh [] [] (Toy.caller [1] [2] 4) 0 2 0
  = Returned (Build_result (Toy.good 3) PKCS5_INVALID_DERIVED_KEY_LENGTH md_unopened
                Toy.fresh (Toy.caller [1] [2] 4) []).
Proof.
  split; [|split].
  - apply (checks_in_order (Toy.good 81) 5 Toy.fresh [] [] (Toy.caller [1] [2] 4) 0 0 0).
    right. reflexivity.
  - apply (checks_in_order (Toy.good 3) 5 Toy.fresh [] [] (Toy.caller [1] [2] 4) 0 0 0).
    + vm_compute. split; discriminate.
    + reflexivity.
  - apply (checks_in_order (Toy.good 3) 5 Toy.fresh [] [] (Toy.caller [1] [2] 4) 0 2 0).
    + vm_compute. split; discriminate.
    + discriminate.
    + reflexivity.
Defined.

(** C9.  For a [dkLen] that an [unsigned int] can hold the function never
    returns [PKCS5_DERIVED_KEY_TOO_LONG]: the guard [dkLen > 4294967295U]
    cannot hold. *)
Theorem too_long_unreachable (E : externals) fuel w U0 T0 m PRF c dkLen res :
  0 <= dkLen < 2 ^ 32 ->
  _gnutls_pkcs5_pbkdf2 E fuel w U0 T0 m PRF c dkLen = Returned res ->
  rc res <> PKCS5_DERIVED_KEY_TOO_LONG.
Proof. intros Hd. apply pbkdf2_codes. lia. Qed.

Lemma too_long_unreachable_witness :
  0 <= 4294967295 < 2 ^ 32 /\
  PKCS5_INVALID_PRF <> PKCS5_DERIVED_KEY_TOO_LONG.
Proof.
  split; [lia|].
  apply (too_long_unreachable (Toy.ext 3 0 true 1 0) 5 Toy.fresh [] []
           (Toy.caller [1] [2] 4) 0 1 4294967295
           (Build_result (Toy.ext 3 0 true 1 0) PKCS5_INVALID_PRF md_open
              {| Toy.key := [1]; Toy.text := []; Toy.keyings := 1;
                 Toy.closed := false |}
              (Toy.caller [1] [2] 4) [])).
  - lia.
  - reflexivity.
Defined.




(** C4.  The context is not released on the three [return]s inside the
    loops.  When the first keying fails, when the allocation fails and when
    the first read yields [NULL], the function returns [PKCS5_INVALID_PRF]
    with the handle open, [gcry_md_close] not called; the run in which
    nothing fails returns with the handle closed. *)
Theorem context_left_open_on_failure :
  (exists res, _gnutls_pkcs5_pbkdf2 (Toy.ext 3 0 true 1 0) 9 Toy.fresh [] []
                 (Toy.caller [1; 2] [3; 4] 8) 0 2 7 = Returned res /\
     rc res = PKCS5_INVALID_PRF /\ handle res = md_open /\
     Toy.closed (final_world res) = false) /\
  (exists res, _gnutls_pkcs5_pbkdf2 (Toy.ext 3 0 false 0 0) 9 Toy.fresh [] []
                 (Toy.caller [1; 2] [3; 4] 8) 0 2 7 = Returned res /\
     rc res = PKCS5_INVALID_PRF /\ handle res = md_open /\
     Toy.closed (final_world res) = false) /\
  (exists res, _gnutls_pkcs5_pbkdf2 (Toy.ext 3 0 true 0 1) 9 Toy.fresh [] []
                 (Toy.caller [1; 2] [3; 4] 8) 0 2 7 = Returned res /\
     rc res = PKCS5_INVALID_PRF /\ handle res = md_open /\
     Toy.closed (final_world res) = false) /\
  (exists res, _gnutls_pkcs5_pbkdf2 (Toy.good 3) 9 Toy.fresh [] []
                 (Toy.caller [1; 2] [3; 4] 8) 0 2 7 = Returned res /\
     rc res = PKCS5_OK /\ handle res = md_closed /\
     Toy.closed (final_world res) = true).
Proof.
  repeat split; eexists; (split; [vm_compute; reflexivity|]); repeat split.
Qed.

(** C8.  The function is deterministic.  Two runs on the same inputs, with
    collaborators that behave as the same functions from the same state,
    return the same result -- return code, handle, collaborators' state,
    caller's memory and copies -- whatever fuel each is given and whatever
    the uninitialised arrays [U] and [T] happen to hold; and once a run
    returns, so does every run that is given no less fuel. *)
Theorem deterministic (E : externals) fuel1 fuel2 w U1 T1 U2 T2 m PRF c dkLen
    res1 :
  0 <= dkLen < 2 ^ 32 ->
  _gnutls_pkcs5_pbkdf2 E fuel1 w U1 T1 m PRF c dkLen = Returned res1 ->
  (forall res2,
     _gnutls_pkcs5_pbkdf2 E fuel2 w U2 T2 m PRF c dkLen = Returned res2 ->
     res1 = res2 /\ rc res1 = rc res2 /\ mem_DK (mem res1) = mem_DK (mem res2)) /\
  ((fuel1 <= fuel2)%nat ->
     _gnutls_pkcs5_pbkdf2 E fuel2 w U2 T2 m PRF c dkLen = Returned res1).
Proof.
  intros Hd H1. split.
  - intros res2 H2.
    pose proof (pbkdf2_agree E fuel1 (Nat.max fuel1 fuel2) w U1 T1 U2 T2
                  m PRF c dkLen res1 Hd ltac:(lia) H1) as H1'.
    pose proof (pbkdf2_agree E fuel2 (Nat.max fuel1 fuel2) w U2 T2 U2 T2
                  m PRF c dkLen res2 Hd ltac:(lia) H2) as H2'.
    assert (res1 = res2) by congruence. subst res2. repeat split.
  - intros Hle. exact (pbkdf2_agree E fuel1 fuel2 w U1 T1 U2 T2
                         m PRF c dkLen res1 Hd Hle H1).
Qed.

Lemma deterministic_witness :
  let res :=
    Build_result (Toy.good 3) PKCS5_OK md_closed
      {| Toy.key := [1; 2]; Toy.text := [39; 46; 53];
         Toy.keyings := 6; Toy.closed := true |}
      {| mem_P := [1; 2]; mem_S := [3; 4];
         mem_DK := [79; 93; 83; 173; 187; 165; 131; 0] |}
      [(0, 3); (3, 3); (6, 1)] in
  (forall res2,
     _gnutls_pkcs5_pbkdf2 (Toy.good 3) 9 Toy.fresh [] [7; 7]
       (Toy.caller [1; 2] [3; 4] 8) 0 2 7 = Returned res2 ->
     res = res2 /\ rc res = rc res2 /\ mem_DK (mem res) = mem_DK (mem res2)) /\
  ((4 <= 9)%nat ->
     _gnutls_pkcs5_pbkdf2 (Toy.good 3) 9 Toy.fresh [] [7; 7]
       (Toy.caller [1; 2] [3; 4] 8) 0 2 7 = Returned res).
Proof.
  intros res.
  apply (deterministic (Toy.good 3) 4 9 Toy.fresh [5; 5; 5; 5] [6] [] [7; 7]
           (Toy.caller [1; 2] [3; 4] 8) 0 2 7).
  - lia.
  - reflexivity.
Defined.

(** What a call that returned [PKCS5_OK] has done, whatever the
    collaborators are: its parameters were valid, the context opened, each
    of the [l] rounds left an accumulator, each round made its copy, and
    [DK] holds the first [dkLen] bytes of the accumulators in a row. *)
Lemma returned_ok_blocks (E : externals) fuel w U0 T0 m PRF c dkLen res :
  0 <= c < 2 ^ 32 -> 0 <= dkLen < 2 ^ 32 ->
  _gnutls_pkcs5_pbkdf2 E fuel w U0 T0 m PRF c dkLen = Returned res ->
  rc res = PKCS5_OK ->
  let hLen := uint (gcry_md_get_algo_dlen E PRF) in
  let l := block_count dkLen hLen in
  let r := last_len dkLen hLen l in
  1 <= hLen <= MAX_PRF_BLOCK_LEN /\ 1 <= c /\ 1 <= dkLen /\
  exists w1 Ts,
    gcry_md_open E w PRF = (w1, 0) /\
    block_values E PRF (mem_P m) (mem_S m) c hLen (Z.to_nat l) 1
      {| r_world := w1; r_U := U0; r_T := T0 |} = Some Ts /\
    written res = copies hLen l r (Z.to_nat l) 1 /\
    mem_DK (mem res)
    = take (Z.to_nat dkLen) (concat Ts) ++ drop (Z.to_nat dkLen) (mem_DK m).
Proof.
  intros Hc Hd H Hok hLen l r.
  destruct (pbkdf2_ok_inv E fuel w U0 T0 m PRF c dkLen res Hc Hd H Hok)
    as (Hh & Hc' & Hd' & Hl & w1 & Hopen).
  fold hLen in Hh, Hl. fold l in Hl.
  apply pbkdf2_returned in H; [|lia|lia|exact Hl].
  split; [exact Hh|]. split; [lia|]. split; [exact Hd'|].
  exists w1. subst res. unfold run in *. fold hLen in Hok |- *. fold l in Hok |- *.
  fold r in Hok |- *.
  pose proof (block_count_spec dkLen hLen ltac:(lia) ltac:(lia)) as [H1 H2].
  fold l in H1, H2.
  pose proof (last_len_spec dkLen hLen ltac:(lia) ltac:(lia)) as [H3 H4].
  fold l in H3, H4. fold r in H3, H4.
  destruct (Z.eqb_spec hLen 0); [lia|].
  destruct (Z.gtb_spec hLen MAX_PRF_BLOCK_LEN); [lia|].
  simpl orb in *. cbv iota in *.
  destruct (Z.eqb_spec c 0); [lia|].
  destruct (Z.eqb_spec dkLen 0); [lia|].
  destruct (Z.gtb_spec dkLen 4294967295); [lia|].
  rewrite Hopen in *. simpl negb in *. cbv iota in *.
  set (st := {| r_world := w1; r_U := U0; r_T := T0 |}) in *.
  destruct (blocks_shape E PRF (mem_P m) (mem_S m) c hLen l r (Z.to_nat l) 1 st m [])
    as (_ & _ & k & Hw & Hk).
  destruct Hk as [(_ & _ & ->)|(Habs & _)]; [|congruence].
  destruct m as [mP mS mDK]. simpl mem_P in *. simpl mem_S in *. simpl mem_DK.
  destruct (blocks_ok_mem E PRF mP mS c hLen l r (Z.to_nat l) 1 st [] mDK mP mS []
              ltac:(lia) H4 ltac:(lia) ltac:(lia) ltac:(simpl; lia) Hok)
    as (Ts & HTs & Hmem).
  exists Ts. split; [reflexivity|]. split; [exact HTs|]. split; [exact Hw|].
  simpl app in Hmem. rewrite Hmem.
  replace ((l - 1) * hLen + r) with dkLen by lia. reflexivity.
Qed.

(** C1 (as amended).  For collaborators that compute a pseudorandom
    function [prf] and do not fail -- the context opens, every keying, read
    and allocation succeeds -- for [1 <= hLen <= MAX_PRF_BLOCK_LEN], any
    password and salt, an iteration count [1 <= c <= 2^32 - 2] and a
    [dkLen >= 1] whose block count is at most [2^32 - 2], the function, given
    enough fuel, returns [PKCS5_OK] and [DK] then starts with the [dkLen]
    bytes of [T_1 || ... || T_l], where [T_i] is the byte-wise exclusive or
    of [U_1 = prf (P, S || INT32_BE (i))], [U_k = prf (P, U_(k-1))],
    [k <= c], with blocks counted from 1 and the index encoded most
    significant byte first. *)
Theorem derives_pkcs5_key (E : externals) PRF prf fuel w U0 T0 m c dkLen :
  let hLen := uint (gcry_md_get_algo_dlen E PRF) in
  hmac_ok E PRF prf w ->
  1 <= hLen <= MAX_PRF_BLOCK_LEN -> 1 <= c < 2 ^ 32 - 1 ->
  1 <= dkLen < 2 ^ 32 -> block_count dkLen hLen < 2 ^ 32 - 1 ->
  (Z.to_nat c < fuel)%nat -> (Z.to_nat (block_count dkLen hLen) < fuel)%nat ->
  exists res,
    _gnutls_pkcs5_pbkdf2 E fuel w U0 T0 m PRF c dkLen = Returned res /\
    rc res = PKCS5_OK /\
    mem_DK (mem res)
    = PBKDF2 prf hLen (mem_P m) (mem_S m) c dkLen
      ++ drop (Z.to_nat dkLen) (mem_DK m) /\
    length (PBKDF2 prf hLen (mem_P m) (mem_S m) c dkLen) = Z.to_nat dkLen.
Proof.
  intros hLen Hok Hh Hc Hd Hl Hfc Hfl. subst hLen.
  exists (run E w U0 T0 m PRF c dkLen).
  split; [apply pbkdf2_run; lia|].
  destruct (run_hmac E PRF prf w Hok U0 T0 m c dkLen Hh ltac:(lia) Hd)
    as (Hrc & _ & _ & _ & _ & Hmem).
  split; [exact Hrc|]. split; [exact Hmem|].
  apply (PBKDF2_length E PRF prf w Hok); lia.
Qed.

Lemma derives_pkcs5_key_witness :
  exists res,
    _gnutls_pkcs5_pbkdf2 (Toy.good 3) 9 Toy.fresh [] [] (Toy.caller [1; 2] [3; 4] 8)
      0 2 7 = Returned res /\
    rc res = PKCS5_OK /\
    mem_DK (mem res) = PBKDF2 (Toy.checksum 3) 3 [1; 2] [3; 4] 2 7 ++ [0] /\
    length (PBKDF2 (Toy.checksum 3) 3 [1; 2] [3; 4] 2 7) = 7%nat.
Proof.
  apply (derives_pkcs5_key (Toy.good 3) 0 (Toy.checksum 3) 9 Toy.fresh [] []
           (Toy.caller [1; 2] [3; 4] 8) 2 7).
  - apply toy_hmac_ok. lia.
  - vm_compute. split; discriminate.
  - lia.
  - lia.
  - vm_compute. reflexivity.
  - vm_compute. lia.
  - vm_compute. lia.
Defined.

(** C5 (as amended).  With the iteration count and the block count at most
    [2^32 - 2] and enough fuel the function returns, and then either it
    returns [PKCS5_OK], has closed the handle and has copied every block,
    [dkLen] bytes in all; or it returns an error and has copied only whole
    leading blocks, [k] of them with [k < l] -- none at all, the caller's
    memory being untouched, when [k = 0], as after a failed check, a context
    that did not open or a failure in the first round. *)
Theorem ok_or_leading_blocks (E : externals) fuel w U0 T0 m PRF c dkLen :
  let hLen := uint (gcry_md_get_algo_dlen E PRF) in
  let l := block_count dkLen hLen in
  let r := last_len dkLen hLen l in
  0 <= c < 2 ^ 32 - 1 -> 0 <= dkLen < 2 ^ 32 -> l < 2 ^ 32 - 1 ->
  (Z.to_nat c < fuel)%nat -> (Z.to_nat l < fuel)%nat ->
  exists res,
    _gnutls_pkcs5_pbkdf2 E fuel w U0 T0 m PRF c dkLen = Returned res /\
    ((rc res = PKCS5_OK /\ handle res = md_closed /\
      written res = copies hLen l r (Z.to_nat l) 1 /\
      bytes_copied (written res) = dkLen)
     \/
     (rc res <> PKCS5_OK /\
      exists k : nat, (k = 0%nat \/ Z.of_nat k < l) /\
        written res = copies hLen l r k 1 /\
        bytes_copied (written res) = Z.of_nat k * hLen /\
        (k = 0%nat -> mem res = m))).
Proof.
  intros hLen l r Hc Hd Hl Hfc Hfl.
  exists (run E w U0 T0 m PRF c dkLen).
  split; [apply pbkdf2_run; assumption|].
  unfold run. fold hLen. fold l. fold r.
  pose proof (uint_range (gcry_md_get_algo_dlen E PRF)) as Hr. fold hLen in Hr.
  assert (Hstop : forall code w', code <> PKCS5_OK ->
    let res := Build_result E code md_unopened w' m [] in
    (rc res = PKCS5_OK /\ handle res = md_closed /\
      written res = copies hLen l r (Z.to_nat l) 1 /\
      bytes_copied (written res) = dkLen)
     \/
     (rc res <> PKCS5_OK /\
      exists k : nat, (k = 0%nat \/ Z.of_nat k < l) /\
        written res = copies hLen l r k 1 /\
        bytes_copied (written res) = Z.of_nat k * hLen /\
        (k = 0%nat -> mem res = m))).
  { intros code w' Hcode. right. split; [exact Hcode|].
    exists 0%nat. repeat split. left. reflexivity. }
  destruct (Z.eqb_spec hLen 0); [apply Hstop; discriminate|].
  destruct (Z.gtb_spec hLen MAX_PRF_BLOCK_LEN); [apply Hstop; discriminate|].
  simpl orb. cbv iota.
  destruct (Z.eqb_spec c 0); [apply Hstop; discriminate|].
  destruct (Z.eqb_spec dkLen 0); [apply Hstop; discriminate|].
  destruct (Z.gtb_spec dkLen 4294967295); [apply Hstop; discriminate|].
  destruct (gcry_md_open E w PRF) as [w1 err].
  destruct (negb (err =? 0)); [apply Hstop; discriminate|].
  pose proof (block_count_spec dkLen hLen ltac:(lia) ltac:(lia)) as [H1 H2].
  fold l in H1, H2.
  pose proof (last_len_spec dkLen hLen ltac:(lia) ltac:(lia)) as [H3 H4].
  fold l in H3, H4. fold r in H3, H4.
  set (st := {| r_world := w1; r_U := U0; r_T := T0 |}).
  pose proof (blocks_untouched E PRF (mem_P m) (mem_S m) c hLen l r (Z.to_nat l) 1 st m [])
    as Hsame.
  destruct (blocks_shape E PRF (mem_P m) (mem_S m) c hLen l r (Z.to_nat l) 1 st m [])
    as (_ & _ & k & Hw & Hk).
  simpl app in Hw. simpl in Hsame.
  destruct Hk as [(Hrc & Hclosed & ->)|(Hrc & _ & Hlt)].
  - left. split; [exact Hrc|]. split; [exact Hclosed|]. split; [exact Hw|].
    rewrite Hw, bytes_copied_all by lia. lia.
  - right. split; [congruence|]. exists k.
    split; [right; lia|]. split; [exact Hw|].
    split; [rewrite Hw; apply bytes_copied_whole; lia|].
    intros ->. apply Hsame; [exact Hw|congruence].
Qed.

Lemma ok_or_leading_blocks_witness :
  exists res,
    _gnutls_pkcs5_pbkdf2 (Toy.ext 3 0 true 3 0) 9 Toy.fresh [] []
      (Toy.caller [1; 2] [3; 4] 8) 0 2 7 = Returned res /\
    ((rc res = PKCS5_OK /\ handle res = md_closed /\
      written res = copies 3 3 1 3 1 /\
      bytes_copied (written res) = 7)
     \/
     (rc res <> PKCS5_OK /\
      exists k : nat, (k = 0%nat \/ Z.of_nat k < 3) /\
        written res = copies 3 3 1 k 1 /\
        bytes_copied (written res) = Z.of_nat k * 3 /\
        (k = 0%nat -> mem res = Toy.caller [1; 2] [3; 4] 8))).
Proof.
  apply (ok_or_leading_blocks (Toy.ext 3 0 true 3 0) 9 Toy.fresh [] []
           (Toy.caller [1; 2] [3; 4] 8) 0 2 7).
  - lia.
  - lia.
  - vm_compute. reflexivity.
  - vm_compute. lia.
  - vm_compute. lia.
Defined.

(** C6.  For [1 <= hLen <= MAX_PRF_BLOCK_LEN] and [dkLen >= 1] the code
    computes [l = CEIL (dkLen / hLen)] and [r = dkLen - (l - 1) * hLen],
    with [1 <= r <= hLen] and [r < hLen] when [dkLen] is no multiple of
    [hLen].  A call that returns [PKCS5_OK] has made [l] copies, the one of
    block [i = j + 1] at offset [(i - 1) * hLen], of [hLen] bytes for [i < l]
    and of [r] bytes for [i = l]; [DK] then holds the [hLen]-byte values of
    the blocks before the last, the first [r] bytes only of the last one,
    and behind them what it held before.  Such calls exist: with
    collaborators that compute a pseudorandom function, [c] and [l] at most
    [2^32 - 2] and enough fuel, the call returns [PKCS5_OK]. *)
Theorem last_block_truncated (E : externals) fuel w U0 T0 m PRF c dkLen :
  let hLen := uint (gcry_md_get_algo_dlen E PRF) in
  let l := block_count dkLen hLen in
  let r := last_len dkLen hLen l in
  1 <= hLen <= MAX_PRF_BLOCK_LEN -> 0 <= c < 2 ^ 32 -> 1 <= dkLen < 2 ^ 32 ->
  l = CEIL_div hLen dkLen /\ r = dkLen - (l - 1) * hLen /\ 1 <= r <= hLen /\
  (dkLen mod hLen <> 0 -> r < hLen) /\
  (forall res,
    _gnutls_pkcs5_pbkdf2 E fuel w U0 T0 m PRF c dkLen = Returned res ->
    rc res = PKCS5_OK ->
    length (written res) = Z.to_nat l /\
    (forall j, 0 <= j < l ->
       written res !! Z.to_nat j
       = Some (j * hLen, if j + 1 =? l then r else hLen)) /\
    exists w1 Ts T_l,
      gcry_md_open E w PRF = (w1, 0) /\
      block_values E PRF (mem_P m) (mem_S m) c hLen (Z.to_nat l) 1
        {| r_world := w1; r_U := U0; r_T := T0 |} = Some (Ts ++ [T_l]) /\
      Forall (fun T => length T = Z.to_nat hLen) (Ts ++ [T_l]) /\
      mem_DK (mem res)
      = concat Ts ++ take (Z.to_nat r) T_l ++ drop (Z.to_nat dkLen) (mem_DK m)) /\
  (forall prf, hmac_ok E PRF prf w ->
     1 <= c < 2 ^ 32 - 1 -> l < 2 ^ 32 - 1 ->
     (Z.to_nat c < fuel)%nat -> (Z.to_nat l < fuel)%nat ->
     exists res,
       _gnutls_pkcs5_pbkdf2 E fuel w U0 T0 m PRF c dkLen = Returned res /\
       rc res = PKCS5_OK).
Proof.
  intros hLen l r Hh Hc Hd.
  pose proof (block_count_spec dkLen hLen ltac:(lia) Hd) as [H1 H2].
  fold l in H1, H2.
  pose proof (last_len_spec dkLen hLen ltac:(lia) Hd) as [H3 H4].
  fold l in H3, H4. fold r in H3, H4.
  split; [apply block_count_ceil; lia|]. split; [exact H3|]. split; [exact H4|].
  split.
  { intros Hmod. destruct (Z.eq_dec r hLen) as [Heq|]; [|lia].
    exfalso. apply Hmod.
    replace dkLen with (0 + l * hLen) by lia.
    rewrite Z.mod_add by lia. apply Z.mod_0_l. lia. }
  split.
  2:{ intros prf Hprf Hc' Hl Hfc Hfl.
      exists (run E w U0 T0 m PRF c dkLen).
      split; [apply pbkdf2_run; subst l hLen; lia|].
      apply (run_hmac E PRF prf w Hprf U0 T0 m c dkLen Hh ltac:(lia) Hd). }
  intros res H Hok.
  destruct (returned_ok_blocks E fuel w U0 T0 m PRF c dkLen res Hc ltac:(lia) H Hok)
    as (_ & _ & _ & w1 & Ts & Hopen & HTs & Hw & Hmem).
  fold hLen in HTs, Hw, Hmem. fold l in HTs, Hw, Hmem. fold r in Hw.
  split; [rewrite Hw; apply length_copies|].
  split.
  { intros j Hj. rewrite Hw, copies_lookup by lia.
    rewrite Z2Nat.id by lia. unfold block_len.
    replace (1 + j - 1) with j by lia.
    replace (1 + j) with (j + 1) by lia. reflexivity. }
  destruct (block_values_shape _ _ _ _ _ _ _ _ _ _ HTs) as [Hlen Hall].
  destruct (decide (Ts = [])) as [->|Hne]; [simpl in Hlen; lia|].
  destruct (exists_last Hne) as (Ts' & T_l & ->).
  exists w1, Ts', T_l.
  split; [exact Hopen|]. split; [exact HTs|]. split; [exact Hall|].
  rewrite Hmem. rewrite concat_app. simpl concat. rewrite app_nil_r.
  apply Forall_app in Hall. destruct Hall as [Hall' Hlast].
  apply Forall_singleton in Hlast.
  rewrite length_app in Hlen. simpl in Hlen.
  pose proof (length_concat_blocks (Z.to_nat hLen) Ts' Hall') as Hcat.
  replace (Z.to_nat dkLen) with (length (concat Ts') + Z.to_nat r)%nat by nia.
  rewrite take_app_add. rewrite <- app_assoc. reflexivity.
Qed.

Lemma last_block_truncated_witness :
  3 = CEIL_div 3 7 /\ 1 = 7 - (3 - 1) * 3 /\
  exists res,
    _gnutls_pkcs5_pbkdf2 (Toy.good 3) 9 Toy.fresh [] [] (Toy.caller [1; 2] [3; 4] 8)
      0 2 7 = Returned res /\
    written res = [(0, 3); (3, 3); (6, 1)] /\
    written res !! 2%nat = Some (2 * 3, 1) /\
    exists Ts T_l,
      Forall (fun T => length T = 3%nat) (Ts ++ [T_l]) /\
      mem_DK (mem res) = concat Ts ++ take 1 T_l ++ [0].
Proof.
  pose proof (last_block_truncated (Toy.good 3) 9 Toy.fresh [] []
                (Toy.caller [1; 2] [3; 4] 8) 0 2 7) as H.
  destruct H as (Hl & Hr & _ & _ & H & _).
  - vm_compute. split; discriminate.
  - lia.
  - lia.
  - split; [exact Hl|]. split; [exact Hr|].
    eexists. split; [vm_compute; reflexivity|].
    split; [reflexivity|].
    match goal with |- context [written ?res] =>
      destruct (H res) as (_ & Hj & w1 & Ts & T_l & _ & _ & Hall & Hmem) end.
    + vm_compute. reflexivity.
    + reflexivity.
    + split; [exact (Hj 2 ltac:(vm_compute; split; [discriminate|reflexivity]))|].
      exists Ts, T_l. split; [exact Hall|exact Hmem].
Defined.

(** C7.  For the same collaborators in the same state, the same password,
    salt and iteration count, and two lengths [dkLen1 < dkLen2], when both
    calls return [PKCS5_OK] the first [dkLen1] bytes of the two keys are the
    same -- whatever the fuel, the buffers and the uninitialised arrays of
    either call: a block depends on its index, not on [dkLen]. *)
Theorem shorter_key_is_prefix (E : externals) fuel1 fuel2 w U1 T1 U2 T2 m1 m2
    PRF c dkLen1 dkLen2 res1 res2 :
  mem_P m1 = mem_P m2 -> mem_S m1 = mem_S m2 ->
  0 <= c < 2 ^ 32 -> 0 <= dkLen1 < dkLen2 -> dkLen2 < 2 ^ 32 ->
  _gnutls_pkcs5_pbkdf2 E fuel1 w U1 T1 m1 PRF c dkLen1 = Returned res1 ->
  rc res1 = PKCS5_OK ->
  _gnutls_pkcs5_pbkdf2 E fuel2 w U2 T2 m2 PRF c dkLen2 = Returned res2 ->
  rc res2 = PKCS5_OK ->
  take (Z.to_nat dkLen1) (mem_DK (mem res1))
  = take (Z.to_nat dkLen1) (mem_DK (mem res2)).
Proof.
  intros HP HS Hc Hd1 Hd2 H1 Hok1 H2 Hok2.
  pose proof (pbkdf2_agree E fuel1 fuel1 w U1 T1 U2 T2 m1 PRF c dkLen1 res1
                ltac:(lia) ltac:(lia) H1) as H1'.
  destruct (returned_ok_blocks E fuel1 w U2 T2 m1 PRF c dkLen1 res1
              Hc ltac:(lia) H1' Hok1)
    as (Hh & _ & Hd1' & w1 & Ts1 & Hopen1 & HTs1 & _ & Hmem1).
  destruct (returned_ok_blocks E fuel2 w U2 T2 m2 PRF c dkLen2 res2
              Hc ltac:(lia) H2 Hok2)
    as (_ & _ & _ & w2 & Ts2 & Hopen2 & HTs2 & _ & Hmem2).
  set (hLen := uint (gcry_md_get_algo_dlen E PRF)) in *.
  set (l1 := block_count dkLen1 hLen) in *.
  set (l2 := block_count dkLen2 hLen) in *.
  rewrite Hopen1 in Hopen2. inversion Hopen2; subst w2.
  rewrite HP, HS in HTs1.
  pose proof (block_count_spec dkLen1 hLen ltac:(lia) ltac:(lia)) as [A1 A2].
  pose proof (block_count_spec dkLen2 hLen ltac:(lia) ltac:(lia)) as [B1 B2].
  fold l1 in A1, A2. fold l2 in B1, B2.
  assert (Hll : l1 <= l2) by nia.
  replace (Z.to_nat l2) with (Z.to_nat l1 + Z.to_nat (l2 - l1))%nat in HTs2 by lia.
  pose proof (block_values_prefix _ _ _ _ _ _ _ _ _ _ _ HTs2) as Hpre.
  rewrite HTs1 in Hpre. inversion Hpre as [HTs]. clear Hpre.
  destruct (block_values_shape _ _ _ _ _ _ _ _ _ _ HTs1) as [Hlen1 Hall1].
  destruct (block_values_shape _ _ _ _ _ _ _ _ _ _ HTs2) as [Hlen2 Hall2].
  pose proof (length_concat_blocks _ _ Hall1) as Hcat1.
  pose proof (length_concat_blocks _ _ Hall2) as Hcat2.
  rewrite Hmem1, Hmem2.
  rewrite !take_app_le by (rewrite length_take; nia).
  rewrite !take_take.
  replace (Z.to_nat dkLen1 `min` Z.to_nat dkLen1)%nat with (Z.to_nat dkLen1) by lia.
  replace (Z.to_nat dkLen1 `min` Z.to_nat dkLen2)%nat with (Z.to_nat dkLen1) by lia.
  rewrite <- (take_drop (Z.to_nat l1) Ts2) at 1.
  rewrite concat_app, <- HTs.
  rewrite take_app_le by nia. reflexivity.
Qed.

Lemma shorter_key_is_prefix_witness :
  take 4 [79; 93; 83; 173; 0; 0] = take 4 [79; 93; 83; 173; 187; 165; 131; 0].
Proof.
  apply (shorter_key_is_prefix (Toy.good 3) 5 9 Toy.fresh [] [8] [9; 9] []
           (Toy.caller [1; 2] [3; 4] 6) (Toy.caller [1; 2] [3; 4] 8) 0 2 4 7
           (Build_result (Toy.good 3) PKCS5_OK md_closed
              {| Toy.key := [1; 2]; Toy.text := [36; 43; 50];
                 Toy.keyings := 4; Toy.closed := true |}
              {| mem_P := [1; 2]; mem_S := [3; 4];
                 mem_DK := [79; 93; 83; 173; 0; 0] |}
              [(0, 3); (3, 1)])
           (Build_result (Toy.good 3) PKCS5_OK md_closed
              {| Toy.key := [1; 2]; Toy.text := [39; 46; 53];
                 Toy.keyings := 6; Toy.closed := true |}
              {| mem_P := [1; 2]; mem_S := [3; 4];
                 mem_DK := [79; 93; 83; 173; 187; 165; 131; 0] |}
              [(0, 3); (3, 3); (6, 1)])).
  - reflexivity.
  - reflexivity.
  - lia.
  - lia.
  - lia.
  - vm_compute. reflexivity.
  - reflexivity.
  - vm_compute. reflexivity.
  - reflexivity.
Defined.

(** C10 (as amended).  When the block count is at most [2^32 - 2] and
    [DK] has the [dkLen] bytes the caller owes, then at every point of every
    execution -- whatever the collaborators do, whatever the iteration
    count, returned or still running -- every copy made lies within offsets
    [0 .. dkLen - 1] of [DK], the bytes of [DK] from offset [dkLen] on and
    its length are untouched, and the password and the salt are as they
    were.  The bytes copied are [dkLen] in all when [PKCS5_OK] is returned,
    and fewer when an error is. *)
Theorem copies_confined (E : externals) fuel w U0 T0 m PRF c dkLen :
  let hLen := uint (gcry_md_get_algo_dlen E PRF) in
  0 <= dkLen < 2 ^ 32 -> block_count dkLen hLen < 2 ^ 32 - 1 ->
  (Z.to_nat dkLen <= length (mem_DK m))%nat ->
  match _gnutls_pkcs5_pbkdf2 E fuel w U0 T0 m PRF c dkLen with
  | Returned res =>
    same_but_DK dkLen m (mem res) /\ confined dkLen (written res) /\
    (rc res = PKCS5_OK -> bytes_copied (written res) = dkLen) /\
    (rc res <> PKCS5_OK -> bytes_copied (written res) < dkLen \/ dkLen = 0)
  | OutOfFuel m' log' => same_but_DK dkLen m m' /\ confined dkLen log'
  end.
Proof.
  intros hLen Hd Hl Hbuf.
  unfold _gnutls_pkcs5_pbkdf2. fold hLen.
  pose proof (uint_range (gcry_md_get_algo_dlen E PRF)) as Hr. fold hLen in Hr.
  assert (Hstop : forall code w', code <> PKCS5_OK ->
    let res := Build_result E code md_unopened w' m [] in
    same_but_DK dkLen m (mem res) /\ confined dkLen (written res) /\
    (rc res = PKCS5_OK -> bytes_copied (written res) = dkLen) /\
    (rc res <> PKCS5_OK -> bytes_copied (written res) < dkLen \/ dkLen = 0)).
  { intros code w' Hcode. simpl.
    split; [apply same_but_DK_refl|]. split; [constructor|].
    split; [contradiction|]. intros _. lia. }
  destruct (Z.eqb_spec hLen 0); [apply Hstop; discriminate|].
  destruct (Z.gtb_spec hLen MAX_PRF_BLOCK_LEN); [apply Hstop; discriminate|].
  simpl orb. cbv iota.
  destruct (Z.eqb_spec c 0); [apply Hstop; discriminate|].
  destruct (Z.eqb_spec dkLen 0); [apply Hstop; discriminate|].
  destruct (Z.gtb_spec dkLen 4294967295); [apply Hstop; discriminate|].
  destruct (gcry_md_open E w PRF) as [w1 err].
  destruct (negb (err =? 0)); [apply Hstop; discriminate|].
  pose proof (block_count_spec dkLen hLen ltac:(lia) ltac:(lia)) as [H1 H2].
  pose proof (last_len_spec dkLen hLen ltac:(lia) ltac:(lia)) as [H3 H4].
  pose proof (loop_i_safe E PRF (mem_P m) (mem_S m) c hLen
                (block_count dkLen hLen)
                (last_len dkLen hLen (block_count dkLen hLen)) dkLen
                ltac:(lia) H4 ltac:(lia) ltac:(lia) ltac:(lia)
                fuel fuel 1 {| r_world := w1; r_U := U0; r_T := T0 |} m m [])
    as Hsafe.
  rewrite (uint_small 1) in Hsafe by lia.
  specialize (Hsafe ltac:(lia) Hbuf (same_but_DK_refl dkLen m)
                (Forall_nil_2 _) ltac:(simpl; lia)).
  destruct (loop_i _ _ _ _ _ _ _ _ _ _ _ _ _ _) as [res|m' log'].
  - destruct Hsafe as (A & B & C & D). repeat split; try assumption.
    + apply A. + apply A. + apply A. + apply A.
    + intros Hne. left. apply D. exact Hne.
  - exact Hsafe.
Qed.

Lemma copies_confined_witness :
  match _gnutls_pkcs5_pbkdf2 (Toy.ext 3 0 true 3 0) 9 Toy.fresh [] []
          (Toy.caller [1; 2] [3; 4] 8) 0 2 7 with
  | Returned res =>
    same_but_DK 7 (Toy.caller [1; 2] [3; 4] 8) (mem res) /\
    confined 7 (written res) /\
    (rc res = PKCS5_OK -> bytes_copied (written res) = 7) /\
    (rc res <> PKCS5_OK -> bytes_copied (written res) < 7 \/ 7 = 0)
  | OutOfFuel m' log' =>
    same_but_DK 7 (Toy.caller [1; 2] [3; 4] 8) m' /\ confined 7 log'
  end.
Proof.
  apply (copies_confined (Toy.ext 3 0 true 3 0) 9 Toy.fresh [] []
           (Toy.caller [1; 2] [3; 4] 8) 0 2 7).
  - lia.
  - vm_compute. reflexivity.
  - vm_compute. lia.
Defined.

(** ** Where the counters wrap *)

(** With a one-byte pseudorandom function and [dkLen = UINT_MAX] the
    block count is [UINT_MAX] and [(uint)i <= l] always holds.  After the
    [l] rounds that fill [DK], [i] is back at 0; the next round copies one
    byte to [DK + (uint)(0 - 1) * hLen], offset [4294967295], the first
    byte past the buffer. *)
Lemma index_wraps_past_end (E : externals) PRF prf w U0 T0 m c fuel :
  hmac_ok E PRF prf w ->
  uint (gcry_md_get_algo_dlen E PRF) = 1 -> 1 <= c < 2 ^ 32 - 1 ->
  fuel = (Z.to_nat 4294967295 + 1)%nat ->
  exists m' log',
    _gnutls_pkcs5_pbkdf2 E fuel w U0 T0 m PRF c 4294967295 = OutOfFuel m' log' /\
    (4294967295, 1) ∈ log'.
Proof.
  intros (idle & keyed & Hprf) Hh Hc Hfuel.
  set (N := Z.to_nat 4294967295) in Hfuel.
  assert (HN : Z.of_nat N = 4294967295) by (subst N; lia).
  clearbody N. subst fuel.
  unfold _gnutls_pkcs5_pbkdf2. rewrite Hh.
  change ((1 =? 0) || (1 >? MAX_PRF_BLOCK_LEN)) with false. cbv iota.
  destruct (Z.eqb_spec c 0); [lia|].
  change (4294967295 =? 0) with false.
  change (4294967295 >? 4294967295) with false. cbv iota.
  change (block_count 4294967295 1) with 4294967295.
  change (last_len 4294967295 1 4294967295) with 1.
  destruct (open_ok _ _ _ _ _ _ Hprf) as (w1 & -> & Hidle).
  change (negb (0 =? 0)) with false. cbv iota.
  set (st := {| r_world := w1; r_U := U0; r_T := T0 |}).
  change (loop_i E PRF (mem_P m) (mem_S m) c 1 4294967295 1 (N + 1) (N + 1) 1 st m [])
    with (loop_i E PRF (mem_P m) (mem_S m) c 1 4294967295 1 (N + 1) (N + 1)
            (sint 1) st m []).
  rewrite loop_i_steps by lia.
  destruct (rounds_hmac E PRF prf w idle keyed Hprf (mem_P m) (mem_S m) c
              1 4294967295 1 N 1 st m [] Hidle)
    as (st' & m' & -> & Hidle').
  rewrite HN. change (sint (1 + 4294967295)) with 0.
  cbn [loop_i].
  change (uint 0 <=? 4294967295) with true. cbv iota.
  rewrite (loop_u_run E PRF (mem_P m) (mem_S m) c 1 (Z.to_nat c)) by lia.
  destruct (iterate_idle E PRF prf w idle keyed Hprf (mem_P m) (mem_S m) 1
              (Z.to_nat c) 0 1
              {| r_world := r_world st'; r_U := r_U st';
                 r_T := memset (r_T st') 0 (Z.to_nat 1) |} Hidle')
    as (st'' & -> & _).
  change (uint 0 =? 4294967295) with false. cbv iota.
  change (uint (uint (sint (0 - 1)) * 1)) with 4294967295.
  eexists _, _. split; [reflexivity|].
  apply elem_of_app. right. apply list_elem_of_singleton. reflexivity.
Qed.

(** C1 (counterexample).  The function does not return [PKCS5_OK] on every
    input the claim admits.  (1) When the allocation of the salt buffer
    fails it returns [PKCS5_INVALID_PRF] although the context opens, no
    keying fails and no read yields [NULL].  (2) With [c = UINT_MAX] and a
    pseudorandom function that never fails, it does not return, whatever
    the fuel: [u <= c] always holds.  (3) With [hLen = 1] and
    [dkLen = UINT_MAX] no fuel makes it return [PKCS5_OK]. *)
Lemma not_every_call_derives_key :
  (snd (gcry_md_open (Toy.ext 3 0 false 0 0) Toy.fresh 0) = 0 /\
   (forall w k, snd (gcry_md_setkey (Toy.ext 3 0 false 0 0) w k) = 0) /\
   (forall w, Toy.keyings w <> 0%nat ->
      snd (gcry_md_read (Toy.ext 3 0 false 0 0) w 0) <> None) /\
   (exists res,
      _gnutls_pkcs5_pbkdf2 (Toy.ext 3 0 false 0 0) 9 Toy.fresh [] []
        (Toy.caller [1; 2] [3; 4] 8) 0 2 7 = Returned res /\
      rc res = PKCS5_INVALID_PRF) /\
   (forall fuel res,
      _gnutls_pkcs5_pbkdf2 (Toy.ext 3 0 false 0 0) fuel Toy.fresh [] []
        (Toy.caller [1; 2] [3; 4] 8) 0 2 7 = Returned res ->
      rc res <> PKCS5_OK)) /\
  (forall fuel,
     _gnutls_pkcs5_pbkdf2 (Toy.good 3) fuel Toy.fresh [] []
       (Toy.caller [1; 2] [3; 4] 8) 0 4294967295 7
     = OutOfFuel (Toy.caller [1; 2] [3; 4] 8) []) /\
  (forall fuel m res,
     _gnutls_pkcs5_pbkdf2 (Toy.good 1) fuel Toy.fresh [] [] m 0 1 4294967295
     = Returned res ->
     rc res <> PKCS5_OK).
Proof.
  split; [|split].
  - split; [reflexivity|]. split; [reflexivity|]. split.
    { intros w Hk. simpl.
      destruct (Nat.eqb_spec (Toy.keyings w) 0); [contradiction|discriminate]. }
    split.
    { eexists. split; [vm_compute; reflexivity|reflexivity]. }
    intros fuel res H.
    pose proof (pbkdf2_agree (Toy.ext 3 0 false 0 0) fuel (Nat.max fuel 9)
                  Toy.fresh [] [] [] [] (Toy.caller [1; 2] [3; 4] 8) 0 2 7 res
                  ltac:(lia) ltac:(lia) H) as H1.
    assert (H9 : exists res9,
      _gnutls_pkcs5_pbkdf2 (Toy.ext 3 0 false 0 0) 9 Toy.fresh [] []
        (Toy.caller [1; 2] [3; 4] 8) 0 2 7 = Returned res9 /\
      rc res9 = PKCS5_INVALID_PRF).
    { eexists. split; [vm_compute; reflexivity|reflexivity]. }
    destruct H9 as (res9 & H9 & Hrc).
    pose proof (pbkdf2_agree (Toy.ext 3 0 false 0 0) 9 (Nat.max fuel 9)
                  Toy.fresh [] [] [] [] (Toy.caller [1; 2] [3; 4] 8) 0 2 7 res9
                  ltac:(lia) ltac:(lia) H9) as H2.
    rewrite H1 in H2. inversion H2; subst. congruence.
  - intros fuel.
    apply (pbkdf2_spins (Toy.good 3) 0 (Toy.checksum 3) Toy.fresh
             (toy_hmac_ok 3 0 ltac:(lia))).
    + vm_compute. split; discriminate.
    + lia.
    + lia.
  - intros fuel m res H Hok.
    destruct (pbkdf2_ok_inv (Toy.good 1) fuel Toy.fresh [] [] m 0 1 4294967295 res
                ltac:(lia) ltac:(lia) H Hok) as (_ & _ & _ & Hl & _).
    vm_compute in Hl. discriminate.
Qed.

(** C5 (counterexample).  (1) A keying that fails in the second round
    makes the function return [PKCS5_INVALID_PRF] after it has copied the
    first block into [DK]: an error with part of the key written.  (2) With
    [c = UINT_MAX] and a pseudorandom function that never fails the function
    returns neither [PKCS5_OK] nor an error, whatever the fuel. *)
Lemma partial_key_after_failure :
  (exists res,
     _gnutls_pkcs5_pbkdf2 (Toy.ext 3 0 true 3 0) 9 Toy.fresh [] []
       (Toy.caller [1; 2] [3; 4] 8) 0 2 7 = Returned res /\
     rc res = PKCS5_INVALID_PRF /\
     written res = [(0, 3)] /\
     mem_DK (Toy.caller [1; 2] [3; 4] 8) = [0; 0; 0; 0; 0; 0; 0; 0] /\
     mem_DK (mem res) = [79; 93; 83; 0; 0; 0; 0; 0]) /\
  (forall fuel,
     _gnutls_pkcs5_pbkdf2 (Toy.good 3) fuel Toy.fresh [] []
       (Toy.caller [1; 2] [3; 4] 8) 0 4294967295 7
     = OutOfFuel (Toy.caller [1; 2] [3; 4] 8) []).
Proof.
  split.
  - eexists. split; [vm_compute; reflexivity|]. repeat split.
  - intros fuel.
    apply (pbkdf2_spins (Toy.good 3) 0 (Toy.checksum 3) Toy.fresh
             (toy_hmac_ok 3 0 ltac:(lia))).
    + vm_compute. split; discriminate.
    + lia.
    + lia.
Qed.

(** C10 (counterexample).  (1) On an execution whose first keying fails
    no byte is copied, not [dkLen = 7].  (2) With [hLen = 1] and
    [dkLen = UINT_MAX] a copy is made at offset [4294967295], past the
    [dkLen] bytes of [DK]. *)
Lemma copies_short_or_past_end :
  (exists res,
     _gnutls_pkcs5_pbkdf2 (Toy.ext 3 0 true 1 0) 9 Toy.fresh [] []
       (Toy.caller [1; 2] [3; 4] 8) 0 2 7 = Returned res /\
     bytes_copied (written res) = 0 /\ 0 <> 7) /\
  (exists fuel m' log',
     _gnutls_pkcs5_pbkdf2 (Toy.good 1) fuel Toy.fresh [] []
       (Toy.caller [1; 2] [3; 4] (Z.to_nat 4294967295)) 0 1 4294967295
     = OutOfFuel m' log' /\
     (4294967295, 1) ∈ log' /\ ~ confined 4294967295 log').
Proof.
  split.
  - eexists. split; [vm_compute; reflexivity|]. split; [reflexivity|lia].
  - destruct (index_wraps_past_end (Toy.good 1) 0 (Toy.checksum 1) Toy.fresh [] []
                (Toy.caller [1; 2] [3; 4] (Z.to_nat 4294967295)) 1
                (Z.to_nat 4294967295 + 1)%nat
                (toy_hmac_ok 1 0 ltac:(lia)) eq_refl ltac:(lia) eq_refl)
      as (m' & log' & Hrun & Hin).
    exists (Z.to_nat 4294967295 + 1)%nat, m', log'.
    split; [exact Hrun|]. split; [exact Hin|].
    intros Hconf. unfold confined in Hconf.
    rewrite Forall_forall in Hconf. specialize (Hconf _ Hin). simpl in Hconf. lia.
Qed.

(** * Further properties of the function *)

(** ** The block index bytes (lines 181-184) *)

(** X1.  Whatever the [int] [i] holds, the four bytes stored behind the
    salt are bytes, and read most significant first they are the number
    [(uint)i]. *)
Theorem block_index_bytes i :
  length (INT i) = 4%nat /\
  Forall (fun b => 0 <= b < 256) (INT i) /\
  be32_decode (INT i) = uint i.
Proof.
  split; [reflexivity|].
  rewrite INT_uint, INT_is_INT32_BE by apply uint_range.
  pose proof (uint_range i) as Hr. set (x := uint i) in *. clearbody x.
  unfold INT32_BE, be32_decode. simpl fold_left.
  change (2 ^ 24) with 16777216. change (2 ^ 16) with 65536.
  change (2 ^ 8) with 256. change (2 ^ 32) with 4294967296 in Hr.
  split.
  - repeat constructor; try (apply Z.mod_pos_bound; lia);
      apply Z.lt_le_incl; apply Z.mod_pos_bound; lia.
  - Z.div_mod_to_equations. lia.
Qed.

(** For one salt, two block indices give the same text [S || INT (i)]
    exactly when they are the same 32-bit value. *)
Lemma block_inputs_differ (S : list Z) i j :
  S ++ INT i = S ++ INT j <-> uint i = uint j.
Proof.
  split.
  - intros H. apply app_inv_head in H.
    destruct (block_index_bytes i) as (_ & _ & <-).
    destruct (block_index_bytes j) as (_ & _ & <-).
    rewrite H. reflexivity.
  - intros H. rewrite (INT_uint i), (INT_uint j), H. reflexivity.
Qed.

(** The first texts of rounds [1 .. n] are pairwise different as long as
    [n] is below [UINT_MAX]. *)
Lemma first_texts_distinct (S : list Z) (n : nat) :
  Z.of_nat n < 2 ^ 32 - 1 ->
  NoDup (map (fun k => S ++ INT k) (seqZ 1 (Z.of_nat n))).
Proof.
  intros Hn.
  change (NoDup ((fun k => S ++ INT k) <$> seqZ 1 (Z.of_nat n))).
  apply NoDup_fmap_2_strong; [|apply NoDup_seqZ].
  intros i j Hi Hj Heq.
  apply elem_of_seqZ in Hi. apply elem_of_seqZ in Hj.
  apply block_inputs_differ in Heq.
  rewrite !uint_small in Heq by lia. exact Heq.
Qed.

(** ** The texts written (lines 159-192) *)

Section Texts.

Variable E : externals.
Variables (PRF : Z) (P S : list Z) (c hLen l r : Z).

(** One iteration writes one text: the salt and the index bytes when
    [u == 1], the [hLen] bytes of [U] otherwise.  One that fails has written
    it or not. *)
Lemma iteration_logs i u (st : regs (logged E)) :
  let t := if u =? 1 then S ++ INT i else bytes_at (r_U st) (Z.to_nat hLen) in
  match iteration (logged E) PRF P S hLen i u st with
  | inl st' => snd (r_world st') = snd (r_world st) ++ [t]
  | inr w => snd w = snd (r_world st) \/ snd w = snd (r_world st) ++ [t]
  end.
Proof.
  unfold iteration. simpl.
  destruct (gcry_md_setkey E _ P) as [w1 rc1].
  destruct (negb (rc1 =? 0)); [left; reflexivity|].
  destruct (u =? 1).
  - simpl. destruct (gnutls_alloca E w1 _); [|left; reflexivity].
    simpl. destruct (gcry_md_read E _ PRF) as [w2 [p|]];
      [reflexivity|right; reflexivity].
  - simpl. destruct (gcry_md_read E _ PRF) as [w2 [p|]];
      [reflexivity|right; reflexivity].
Qed.

(** The iterations after the first write texts of [hLen] bytes. *)
Lemma iterate_logs n : forall i u (st : regs (logged E)),
  2 <= u ->
  exists tail,
    Forall (fun t => length t = Z.to_nat hLen) tail /\
    match iterate (logged E) PRF P S hLen n i u st with
    | inl st' => snd (r_world st') = snd (r_world st) ++ tail /\ length tail = n
    | inr w => snd w = snd (r_world st) ++ tail /\ (length tail <= n)%nat
    end.
Proof.
  induction n as [|n IH]; intros i u st Hu; simpl.
  - exists []. split; [constructor|]. rewrite app_nil_r. split; reflexivity.
  - pose proof (iteration_logs i u st) as Hit. simpl in Hit.
    destruct (Z.eqb_spec u 1); [lia|].
    destruct (iteration (logged E) PRF P S hLen i u st) as [st1|w1].
    + destruct (IH i (u + 1) st1 ltac:(lia)) as (tail & Hlen & Hrest).
      exists (bytes_at (r_U st) (Z.to_nat hLen) :: tail).
      split; [constructor; [apply length_bytes_at|exact Hlen]|].
      destruct (iterate (logged E) PRF P S hLen n i (u + 1) st1) as [st2|w2];
        destruct Hrest as [Hw Hn]; rewrite Hw, Hit, <- app_assoc; simpl;
        split; try reflexivity; lia.
    + destruct Hit as [Hit|Hit]; rewrite Hit.
      * exists []. split; [constructor|]. rewrite app_nil_r. split; [reflexivity|simpl; lia].
      * exists [bytes_at (r_U st) (Z.to_nat hLen)].
        split; [repeat constructor; apply length_bytes_at|].
        split; [reflexivity|simpl; lia].
Qed.

(** A round writes [S || INT (i)] and then [c - 1] texts of [hLen] bytes;
    a round that fails has written a part of that from its start. *)
Lemma block_logs i (st : regs (logged E)) :
  1 <= c ->
  match block (logged E) PRF P S c hLen i st with
  | inl st' =>
    exists tail,
      snd (r_world st') = snd (r_world st) ++ (S ++ INT i) :: tail /\
      Forall (fun t => length t = Z.to_nat hLen) tail /\
      length tail = Z.to_nat (c - 1)
  | inr w =>
    snd w = snd (r_world st) \/
    exists tail,
      snd w = snd (r_world st) ++ (S ++ INT i) :: tail /\
      Forall (fun t => length t = Z.to_nat hLen) tail /\
      (length tail <= Z.to_nat (c - 1))%nat
  end.
Proof.
  intros Hc. unfold block.
  replace (Z.to_nat c) with (Datatypes.S (Z.to_nat (c - 1))) by lia.
  simpl iterate.
  set (st0 := Build_regs (logged E) (r_world st) (r_U st)
                (memset (r_T st) 0 (Z.to_nat hLen))).
  pose proof (iteration_logs i 1 st0) as Hit. simpl in Hit.
  destruct (iteration (logged E) PRF P S hLen i 1 st0) as [st1|w1].
  - destruct (iterate_logs (Z.to_nat (c - 1)) i (1 + 1) st1 ltac:(lia))
      as (tail & Hlen & Hrest).
    destruct (iterate (logged E) PRF P S hLen (Z.to_nat (c - 1)) i (1 + 1) st1)
      as [st2|w2]; destruct Hrest as [Hw Hn].
    + exists tail. rewrite Hw, Hit, <- app_assoc. auto.
    + right. exists tail. rewrite Hw, Hit, <- app_assoc. auto.
  - destruct Hit as [Hit|Hit]; [left; exact Hit|].
    right. exists []. rewrite Hit. split; [reflexivity|].
    split; [constructor|simpl; lia].
Qed.

(** The texts of [n] rounds from [i] on, round by round. *)
Lemma blocks_logs n : forall i (st : regs (logged E)) m log,
  1 <= c ->
  exists groups : list (list (list Z)),
    snd (final_world (blocks (logged E) PRF P S c hLen l r n i st m log))
    = snd (r_world st) ++ concat groups /\
    (length groups <= n)%nat /\
    (rc (blocks (logged E) PRF P S c hLen l r n i st m log) = PKCS5_OK ->
     length groups = n) /\
    forall (k : nat) g, groups !! k = Some g ->
      exists tail,
        g = (S ++ INT (i + Z.of_nat k)) :: tail /\
        Forall (fun t => length t = Z.to_nat hLen) tail /\
        (length tail <= Z.to_nat (c - 1))%nat /\
        (rc (blocks (logged E) PRF P S c hLen l r n i st m log) = PKCS5_OK \/
         (Datatypes.S k < length groups)%nat ->
         length tail = Z.to_nat (c - 1)).
Proof.
  induction n as [|n IH]; intros i st m log Hc; simpl.
  - exists []. simpl. rewrite app_nil_r.
    split; [reflexivity|]. split; [lia|]. split; [reflexivity|].
    intros k g Hk. discriminate.
  - pose proof (block_logs i st Hc) as Hb.
    destruct (block (logged E) PRF P S c hLen i st) as [st1|w1].
    + destruct Hb as (tail & Hw & Hlen & Hn).
      match goal with
      | |- context [blocks _ _ _ _ _ _ _ _ n (i + 1) st1 ?m' ?log'] =>
        destruct (IH (i + 1) st1 m' log' Hc) as (groups & Hlog & Hle & Hok & Hg)
      end.
      exists (((S ++ INT i) :: tail) :: groups).
      split; [rewrite Hlog, Hw, <- app_assoc; reflexivity|].
      split; [simpl; lia|].
      split; [intros H; simpl; rewrite (Hok H); reflexivity|].
      intros [|k] g Hk; simpl in Hk.
      * inversion Hk; subst g. exists tail.
        rewrite Z.add_0_r. split; [reflexivity|].
        split; [exact Hlen|]. split; [lia|]. intros _. exact Hn.
      * destruct (Hg k g Hk) as (tl & -> & H1 & H2 & H3).
        exists tl. replace (i + Z.of_nat (Datatypes.S k)) with (i + 1 + Z.of_nat k) by lia.
        split; [reflexivity|]. split; [exact H1|]. split; [exact H2|].
        intros [H|H]; apply H3; [left; exact H|right; simpl in H; lia].
    + simpl. destruct Hb as [Hb|(tail & Hw & Hlen & Hn)].
      * exists []. simpl. rewrite app_nil_r.
        split; [exact Hb|]. split; [lia|]. split; [discriminate|].
        intros k g Hk. discriminate.
      * exists [(S ++ INT i) :: tail]. simpl. rewrite app_nil_r.
        split; [exact Hw|]. split; [lia|]. split; [discriminate|].
        intros [|k] g Hk; simpl in Hk; [|discriminate].
        inversion Hk; subst g. exists tail. rewrite Z.add_0_r.
        split; [reflexivity|]. split; [exact Hlen|]. split; [exact Hn|].
        intros [H|H]; [discriminate|simpl in H; lia].
Qed.

End Texts.

Lemma block_count_nonneg dkLen hLen :
  0 <= dkLen -> 0 <= hLen -> 0 <= block_count dkLen hLen.
Proof.
  intros Hd Hh. unfold block_count.
  destruct (negb _); [apply uint_range|].
  apply Z_div_nonneg_nonneg; assumption.
Qed.

(** X2.  The texts a call passes to [gcry_md_write], in order, whatever the
    collaborators are, for an iteration count and a block count [l] below
    [UINT_MAX]: a call that returns has written the texts of rounds
    [1 .. n] for some [n <= l], with [n = l] when it returns [PKCS5_OK].
    Round [k] wrote [S || INT (k)] first and then at most [c - 1] texts of
    [hLen] bytes each; exactly [c - 1] in every round but the last one of a
    call that failed, and in every round of a call that returns [PKCS5_OK].
    The first texts of the rounds are pairwise different. *)
Theorem texts_written_by_rounds (E : externals) fuel w t0 U0 T0 m PRF c dkLen res :
  let hLen := uint (gcry_md_get_algo_dlen E PRF) in
  let l := block_count dkLen hLen in
  0 <= c < 2 ^ 32 - 1 -> 0 <= dkLen < 2 ^ 32 -> l < 2 ^ 32 - 1 ->
  _gnutls_pkcs5_pbkdf2 (logged E) fuel (w, t0) U0 T0 m PRF c dkLen = Returned res ->
  exists groups : list (list (list Z)),
    snd (final_world res) = t0 ++ concat groups /\
    Z.of_nat (length groups) <= l /\
    (rc res = PKCS5_OK -> Z.of_nat (length groups) = l) /\
    (forall (k : nat) g, groups !! k = Some g ->
       exists tail,
         g = (mem_S m ++ INT (1 + Z.of_nat k)) :: tail /\
         Forall (fun t => length t = Z.to_nat hLen) tail /\
         Z.of_nat (length tail) <= c - 1 /\
         (rc res = PKCS5_OK \/ (Datatypes.S k < length groups)%nat ->
          Z.of_nat (length tail) = c - 1)) /\
    NoDup (map (fun k => mem_S m ++ INT k) (seqZ 1 (Z.of_nat (length groups)))).
Proof.
  intros hLen l Hc Hd Hl H.
  apply pbkdf2_returned in H; [|exact Hc|exact Hd|exact Hl].
  pose proof (uint_range (gcry_md_get_algo_dlen E PRF)) as Hr. fold hLen in Hr.
  pose proof (block_count_nonneg dkLen hLen ltac:(lia) ltac:(lia)) as Hl0.
  fold l in Hl0.
  assert (Hnone : forall code, code <> PKCS5_OK -> forall w',
    snd w' = t0 ->
    res = Build_result (logged E) code md_unopened w' m [] ->
    exists groups : list (list (list Z)),
      snd (final_world res) = t0 ++ concat groups /\
      Z.of_nat (length groups) <= l /\
      (rc res = PKCS5_OK -> Z.of_nat (length groups) = l) /\
      (forall (k : nat) g, groups !! k = Some g ->
         exists tail,
           g = (mem_S m ++ INT (1 + Z.of_nat k)) :: tail /\
           Forall (fun t => length t = Z.to_nat hLen) tail /\
           Z.of_nat (length tail) <= c - 1 /\
           (rc res = PKCS5_OK \/ (Datatypes.S k < length groups)%nat ->
            Z.of_nat (length tail) = c - 1)) /\
      NoDup (map (fun k => mem_S m ++ INT k) (seqZ 1 (Z.of_nat (length groups))))).
  { intros code Hcode w' Hw' ->. exists []. simpl. rewrite app_nil_r.
    split; [exact Hw'|]. split; [exact Hl0|]. split; [congruence|].
    split; [intros k g Hk; discriminate|constructor]. }
  unfold run in H.
  change (gcry_md_get_algo_dlen (logged E) PRF)
    with (gcry_md_get_algo_dlen E PRF) in H.
  fold hLen in H. fold l in H.
  destruct (_ || _); [apply (Hnone PKCS5_INVALID_PRF ltac:(discriminate) (w, t0) eq_refl H)|].
  destruct (Z.eqb_spec c 0);
    [apply (Hnone PKCS5_INVALID_ITERATION_COUNT ltac:(discriminate) (w, t0) eq_refl H)|].
  destruct (dkLen =? 0);
    [apply (Hnone PKCS5_INVALID_DERIVED_KEY_LENGTH ltac:(discriminate) (w, t0) eq_refl H)|].
  destruct (dkLen >? 4294967295);
    [apply (Hnone PKCS5_DERIVED_KEY_TOO_LONG ltac:(discriminate) (w, t0) eq_refl H)|].
  simpl gcry_md_open in H.
  destruct (gcry_md_open E w PRF) as [w1 err]. simpl fst in H. simpl snd in H.
  destruct (negb (err =? 0));
    [apply (Hnone PKCS5_INVALID_PRF ltac:(discriminate) (w1, t0) eq_refl H)|].
  clear Hnone.
  destruct (blocks_logs E PRF (mem_P m) (mem_S m) c hLen l
              (last_len dkLen hLen l) (Z.to_nat l) 1
              (Build_regs (logged E) (w1, t0) U0 T0) m [] ltac:(lia))
    as (groups & Hlog & Hle & Hok & Hg).
  rewrite <- H in Hlog, Hok, Hg. simpl in Hlog.
  exists groups.
  split; [exact Hlog|]. split; [lia|].
  split; [intros Hrc; rewrite (Hok Hrc); lia|].
  split.
  - intros k g Hk. destruct (Hg k g Hk) as (tail & -> & H1 & H2 & H3).
    exists tail. split; [reflexivity|]. split; [exact H1|].
    split; [lia|]. intros Hcase. rewrite (H3 Hcase). lia.
  - apply first_texts_distinct. lia.
Qed.

Lemma texts_written_by_rounds_witness :
  exists groups : list (list (list Z)),
    [[9]; [3; 4; 0; 0; 0; 1]; [33; 40; 47]; [3; 4; 0; 0; 0; 2]; [36; 43; 50];
     [3; 4; 0; 0; 0; 3]; [39; 46; 53]]
    = [[9]] ++ concat groups /\
    Z.of_nat (length groups) <= block_count 7 (uint 3) /\
    (PKCS5_OK = PKCS5_OK -> Z.of_nat (length groups) = block_count 7 (uint 3)) /\
    (forall (k : nat) g, groups !! k = Some g ->
       exists tail,
         g = ([3; 4] ++ INT (1 + Z.of_nat k)) :: tail /\
         Forall (fun t => length t = Z.to_nat (uint 3)) tail /\
         Z.of_nat (length tail) <= 2 - 1 /\
         (PKCS5_OK = PKCS5_OK \/ (Datatypes.S k < length groups)%nat ->
          Z.of_nat (length tail) = 2 - 1)) /\
    NoDup (map (fun k => [3; 4] ++ INT k) (seqZ 1 (Z.of_nat (length groups)))).
Proof.
  apply (texts_written_by_rounds (Toy.good 3) 9 Toy.fresh [[9]] [] []
           (Toy.caller [1; 2] [3; 4] 8) 0 2 7
           (Build_result (logged (Toy.good 3)) PKCS5_OK md_closed
              ({| Toy.key := [1; 2]; Toy.text := [39; 46; 53];
                  Toy.keyings := 6; Toy.closed := true |},
               [[9]; [3; 4; 0; 0; 0; 1]; [33; 40; 47]; [3; 4; 0; 0; 0; 2];
                [36; 43; 50]; [3; 4; 0; 0; 0; 3]; [39; 46; 53]])
              {| mem_P := [1; 2]; mem_S := [3; 4];
                 mem_DK := [79; 93; 83; 173; 187; 165; 131; 0] |}
              [(0, 3); (3, 3); (6, 1)])).
  - lia.
  - lia.
  - vm_compute. reflexivity.
  - vm_compute. reflexivity.
Defined.

(** ** Return codes and the handle (lines 76-94, 155-209) *)

(** X3.  The two codes of the iteration count and of the key length tell
    the caller exactly what was wrong: [PKCS5_INVALID_ITERATION_COUNT] is
    returned if and only if [hLen] is valid and [c] is zero,
    [PKCS5_INVALID_DERIVED_KEY_LENGTH] if and only if [hLen] is valid, [c]
    is not zero and [dkLen] is zero; no failure inside the loops is reported
    with them. *)
Theorem error_codes_diagnose (E : externals) fuel w U0 T0 m PRF c dkLen res :
  _gnutls_pkcs5_pbkdf2 E fuel w U0 T0 m PRF c dkLen = Returned res ->
  let hLen := uint (gcry_md_get_algo_dlen E PRF) in
  (rc res = PKCS5_INVALID_ITERATION_COUNT
   <-> 1 <= hLen <= MAX_PRF_BLOCK_LEN /\ c = 0) /\
  (rc res = PKCS5_INVALID_DERIVED_KEY_LENGTH
   <-> 1 <= hLen <= MAX_PRF_BLOCK_LEN /\ c <> 0 /\ dkLen = 0).
Proof.
  intros H hLen. unfold _gnutls_pkcs5_pbkdf2 in H. fold hLen in H.
  pose proof (uint_range (gcry_md_get_algo_dlen E PRF)) as Hr. fold hLen in Hr.
  destruct (Z.eqb_spec hLen 0); simpl in H.
  { inversion H; subst res; simpl.
    repeat split; intros; try discriminate; lia. }
  destruct (Z.gtb_spec hLen MAX_PRF_BLOCK_LEN).
  { inversion H; subst res; simpl.
    repeat split; intros; try discriminate; lia. }
  destruct (Z.eqb_spec c 0).
  { inversion H; subst res; simpl.
    repeat split; intros; try discriminate; lia. }
  destruct (Z.eqb_spec dkLen 0).
  { inversion H; subst res; simpl.
    repeat split; intros; try discriminate; lia. }
  assert (Hcodes : rc res = PKCS5_OK \/ rc res = PKCS5_DERIVED_KEY_TOO_LONG \/
                   rc res = PKCS5_INVALID_PRF).
  { destruct (dkLen >? 4294967295); [inversion H; subst; simpl; tauto|].
    destruct (gcry_md_open E w PRF) as [w1 err].
    destruct (negb (err =? 0)); [inversion H; subst; simpl; tauto|].
    apply loop_i_codes in H. tauto. }
  split; split.
  - intros Hrc. rewrite Hrc in Hcodes. destruct Hcodes as [?|[?|?]]; discriminate.
  - intros [_ ?]. lia.
  - intros Hrc. rewrite Hrc in Hcodes. destruct Hcodes as [?|[?|?]]; discriminate.
  - intros (_ & _ & ?). lia.
Qed.

Lemma error_codes_diagnose_witness :
  (PKCS5_INVALID_ITERATION_COUNT = PKCS5_INVALID_ITERATION_COUNT
   <-> 1 <= 3 <= MAX_PRF_BLOCK_LEN /\ 0 = 0) /\
  (PKCS5_INVALID_ITERATION_COUNT = PKCS5_INVALID_DERIVED_KEY_LENGTH
   <-> 1 <= 3 <= MAX_PRF_BLOCK_LEN /\ 0 <> 0 /\ 7 = 0).
Proof.
  apply (error_codes_diagnose (Toy.good 3) 5 Toy.fresh [] []
           (Toy.caller [1] [2] 8) 0 0 7
           (Build_result (Toy.good 3) PKCS5_INVALID_ITERATION_COUNT md_unopened
              Toy.fresh (Toy.caller [1] [2] 8) [])).
  reflexivity.
Defined.

(** ** Opening and closing the context (lines 155-157, 207) *)

Section Audit.

Variable E : externals.
Variables (PRF : Z) (P S : list Z) (c hLen l r : Z).

(** Nothing in the loops opens or closes a context. *)
Lemma iteration_audit i u (st : regs (audited E)) :
  match iteration (audited E) PRF P S hLen i u st with
  | inl st' => snd (r_world st') = snd (r_world st)
  | inr w => snd w = snd (r_world st)
  end.
Proof.
  unfold iteration. simpl.
  destruct (gcry_md_setkey E _ P) as [w1 rc1].
  destruct (negb (rc1 =? 0)); [reflexivity|].
  destruct (u =? 1).
  - simpl. destruct (gnutls_alloca E w1 _); [|reflexivity].
    simpl. destruct (gcry_md_read E _ PRF) as [w2 [p|]]; reflexivity.
  - simpl. destruct (gcry_md_read E _ PRF) as [w2 [p|]]; reflexivity.
Qed.

Lemma loop_u_audit fuel : forall i u (st : regs (audited E)),
  match loop_u (audited E) PRF P S c hLen fuel i u st with
  | IterDone _ st' => snd (r_world st') = snd (r_world st)
  | IterFail _ w => snd w = snd (r_world st)
  | IterOutOfFuel _ => True
  end.
Proof.
  induction fuel as [|fuel IH]; intros i u st; simpl.
  - exact I.
  - destruct (u <=? c); [|reflexivity].
    pose proof (iteration_audit i u st) as Hit.
    destruct (iteration (audited E) PRF P S hLen i u st) as [st1|w1].
    + specialize (IH i (uint (u + 1)) st1).
      destruct (loop_u (audited E) PRF P S c hLen fuel i (uint (u + 1)) st1);
        try congruence; exact I.
    + exact Hit.
Qed.

(** The loop on [i] closes the context once when it ends, and not at all
    when an iteration returns from inside it. *)
Lemma loop_i_audit fuel : forall fuel_u i (st : regs (audited E)) m log res,
  loop_i (audited E) PRF P S c hLen l r fuel fuel_u i st m log = Returned res ->
  (rc res = PKCS5_OK /\ handle res = md_closed /\
   snd (final_world res)
   = (fst (snd (r_world st)), Datatypes.S (snd (snd (r_world st))))) \/
  (rc res = PKCS5_INVALID_PRF /\ handle res = md_open /\
   snd (final_world res) = snd (r_world st)).
Proof.
  induction fuel as [|fuel IH]; intros fuel_u i st m log res H; simpl in H.
  - discriminate.
  - destruct (uint i <=? l).
    + match type of H with
      | context [loop_u _ _ _ _ _ _ _ _ _ ?s] =>
        pose proof (loop_u_audit fuel_u i 1 s) as Hu
      end.
      destruct (loop_u (audited E) PRF P S c hLen fuel_u i 1 _) as [st'|w|].
      * apply IH in H. simpl in Hu. rewrite Hu in H. exact H.
      * inversion H; subst. right. simpl. auto.
      * discriminate.
    + inversion H; subst. left. simpl. auto.
Qed.

End Audit.

(** X4.  Counting the calls of [gcry_md_open] that return no error and the
    calls of [gcry_md_close], whatever the collaborators are and whatever the
    counts were before: a call that returns [PKCS5_OK] has opened one
    context and called [gcry_md_close] once; a call that returns anything
    else has not called [gcry_md_close] and has opened at most one context.
    The handle recorded in the result agrees with the calls made: unopened
    exactly when no context was opened, open exactly when one was opened and
    none closed, closed exactly when [gcry_md_close] was called. *)
Theorem close_called_only_on_ok (E : externals) fuel w opens closes U0 T0 m
    PRF c dkLen res :
  _gnutls_pkcs5_pbkdf2 (audited E) fuel (w, (opens, closes)) U0 T0 m PRF c dkLen
  = Returned res ->
  let opens' := fst (snd (final_world res)) in
  let closes' := snd (snd (final_world res)) in
  (rc res = PKCS5_OK -> opens' = Datatypes.S opens /\ closes' = Datatypes.S closes) /\
  (rc res <> PKCS5_OK ->
   closes' = closes /\ (opens' = opens \/ opens' = Datatypes.S opens)) /\
  (handle res = md_unopened <-> opens' = opens) /\
  (handle res = md_open <-> opens' = Datatypes.S opens /\ closes' = closes) /\
  (handle res = md_closed <-> closes' = Datatypes.S closes).
Proof.
  intros H opens' closes'. subst opens' closes'.
  unfold _gnutls_pkcs5_pbkdf2 in H.
  destruct (_ || _);
    [inversion H; subst; simpl; repeat split; intros; try congruence; try lia; auto|].
  destruct (c =? 0);
    [inversion H; subst; simpl; repeat split; intros; try congruence; try lia; auto|].
  destruct (dkLen =? 0);
    [inversion H; subst; simpl; repeat split; intros; try congruence; try lia; auto|].
  destruct (dkLen >? 4294967295);
    [inversion H; subst; simpl; repeat split; intros; try congruence; try lia; auto|].
  simpl in H.
  destruct (gcry_md_open E w PRF) as [w1 err].
  destruct (Z.eqb_spec err 0) as [He|He]; simpl in H.
  - apply loop_i_audit in H. simpl in H.
    destruct H as [(H1 & H2 & H3)|(H1 & H2 & H3)]; rewrite H1, H2, H3; simpl;
      repeat split; intros; try congruence; try lia; auto;
      try (destruct H; lia).
  - inversion H; subst. simpl.
    repeat split; intros; try congruence; try lia; auto.
Qed.

Lemma close_called_only_on_ok_witness :
  (PKCS5_INVALID_PRF = PKCS5_OK -> 1%nat = 1%nat /\ 0%nat = 1%nat) /\
  (PKCS5_INVALID_PRF <> PKCS5_OK ->
   0%nat = 0%nat /\ (1%nat = 0%nat \/ 1%nat = 1%nat)) /\
  (md_open = md_unopened <-> 1%nat = 0%nat) /\
  (md_open = md_open <-> 1%nat = 1%nat /\ 0%nat = 0%nat) /\
  (md_open = md_closed <-> 0%nat = 1%nat).
Proof.
  apply (close_called_only_on_ok (Toy.ext 3 0 true 3 0) 9 Toy.fresh
           0%nat 0%nat [] []
           (Toy.caller [1; 2] [3; 4] 8) 0 2 7
           (Build_result (audited (Toy.ext 3 0 true 3 0)) PKCS5_INVALID_PRF md_open
              ({| Toy.key := [1; 2]; Toy.text := [];
                  Toy.keyings := 3; Toy.closed := false |}, (1%nat, 0%nat))
              {| mem_P := [1; 2]; mem_S := [3; 4];
                 mem_DK := [79; 93; 83; 0; 0; 0; 0; 0] |}
              [(0, 3)])).
  vm_compute. reflexivity.
Defined.

(** X5.  With valid parameters and at least one unit of fuel, whatever
    goes wrong before the first digest is read is reported as
    [PKCS5_INVALID_PRF] with [DK] untouched and nothing copied: a context
    that does not open (the handle is then not open), a keying that fails, a
    salt buffer that cannot be allocated, a read that yields [NULL] (the
    handle is then left open).  The text of that first read is the salt
    followed by the bytes 0, 0, 0, 1. *)
Theorem first_round_failures (E : externals) fuel w U0 T0 m PRF c dkLen :
  let hLen := uint (gcry_md_get_algo_dlen E PRF) in
  1 <= hLen <= MAX_PRF_BLOCK_LEN -> 1 <= c -> 1 <= dkLen < 2 ^ 32 ->
  (0 < fuel)%nat ->
  let run := _gnutls_pkcs5_pbkdf2 E fuel w U0 T0 m PRF c dkLen in
  (forall w1 err, gcry_md_open E w PRF = (w1, err) -> err <> 0 ->
     run = Returned (Build_result E PKCS5_INVALID_PRF md_unopened w1 m [])) /\
  (forall w1 w2 rc2, gcry_md_open E w PRF = (w1, 0) ->
     gcry_md_setkey E (gcry_md_reset E w1) (mem_P m) = (w2, rc2) -> rc2 <> 0 ->
     run = Returned (Build_result E PKCS5_INVALID_PRF md_open w2 m [])) /\
  (forall w1 w2, gcry_md_open E w PRF = (w1, 0) ->
     gcry_md_setkey E (gcry_md_reset E w1) (mem_P m) = (w2, 0) ->
     gnutls_alloca E w2 (Z.of_nat (length (mem_S m)) + 4) = false ->
     run = Returned (Build_result E PKCS5_INVALID_PRF md_open w2 m [])) /\
  (forall w1 w2 w3, gcry_md_open E w PRF = (w1, 0) ->
     gcry_md_setkey E (gcry_md_reset E w1) (mem_P m) = (w2, 0) ->
     gnutls_alloca E w2 (Z.of_nat (length (mem_S m)) + 4) = true ->
     gcry_md_read E (gcry_md_write E w2 (mem_S m ++ [0; 0; 0; 1])) PRF = (w3, None) ->
     run = Returned (Build_result E PKCS5_INVALID_PRF md_open w3 m [])).
Proof.
  intros hLen Hh Hc Hd Hfuel run. subst run.
  unfold _gnutls_pkcs5_pbkdf2. fold hLen.
  pose proof (block_count_spec dkLen hLen ltac:(lia) Hd) as [H1 H2].
  destruct (Z.eqb_spec hLen 0); [lia|].
  destruct (Z.gtb_spec hLen MAX_PRF_BLOCK_LEN); [lia|]. simpl orb. cbv iota.
  destruct (Z.eqb_spec c 0); [lia|].
  destruct (Z.eqb_spec dkLen 0); [lia|].
  destruct (Z.gtb_spec dkLen 4294967295); [lia|].
  destruct fuel as [|fuel]; [lia|].
  assert (Hround : forall w1,
    loop_i E PRF (mem_P m) (mem_S m) c hLen (block_count dkLen hLen)
      (last_len dkLen hLen (block_count dkLen hLen))
      (Datatypes.S fuel) (Datatypes.S fuel) 1
      {| r_world := w1; r_U := U0; r_T := T0 |} m []
    = match iteration E PRF (mem_P m) (mem_S m) hLen 1 1
              {| r_world := w1; r_U := U0;
                 r_T := memset T0 0 (Z.to_nat hLen) |} with
      | inl st' =>
        loop_i E PRF (mem_P m) (mem_S m) c hLen (block_count dkLen hLen)
          (last_len dkLen hLen (block_count dkLen hLen))
          (Datatypes.S fuel) (Datatypes.S fuel) 1
          {| r_world := w1; r_U := U0; r_T := T0 |} m []
      | inr w' => Returned (Build_result E PKCS5_INVALID_PRF md_open w' m [])
      end).
  { intros w1. cbn [loop_i loop_u r_world r_U r_T].
    rewrite (uint_small 1) by lia.
    destruct (Z.leb_spec 1 (block_count dkLen hLen)); [|lia].
    destruct (Z.leb_spec 1 c); [|lia].
    destruct (iteration _ _ _ _ _ _ _ _) as [st'|w']; reflexivity. }
  repeat split.
  - intros w1 err -> Herr.
    destruct (Z.eqb_spec err 0); [contradiction|]. reflexivity.
  - intros w1 w2 rc2 -> Hkey Hrc. simpl negb. cbv iota.
    rewrite Hround. unfold iteration. cbn [r_world]. rewrite Hkey.
    destruct (Z.eqb_spec rc2 0); [contradiction|]. reflexivity.
  - intros w1 w2 -> Hkey Halloc. simpl negb. cbv iota.
    rewrite Hround. unfold iteration. cbn [r_world]. rewrite Hkey.
    simpl. rewrite Halloc. reflexivity.
  - intros w1 w2 w3 -> Hkey Halloc Hread. simpl negb. cbv iota.
    rewrite Hround. unfold iteration. cbn [r_world]. rewrite Hkey.
    simpl. rewrite Halloc.
    change (INT 1) with [0; 0; 0; 1]. rewrite Hread. reflexivity.
Qed.

Lemma first_round_failures_witness :
  _gnutls_pkcs5_pbkdf2 (Toy.ext 3 0 false 0 0) 9 Toy.fresh [] []
    (Toy.caller [1; 2] [3; 4] 8) 0 2 7
  = Returned (Build_result (Toy.ext 3 0 false 0 0) PKCS5_INVALID_PRF md_open
                {| Toy.key := [1; 2]; Toy.text := []; Toy.keyings := 1;
                   Toy.closed := false |}
                (Toy.caller [1; 2] [3; 4] 8) []).
Proof.
  destruct (first_round_failures (Toy.ext 3 0 false 0 0) 9 Toy.fresh [] []
              (Toy.caller [1; 2] [3; 4] 8) 0 2 7) as (_ & _ & H & _).
  - vm_compute. split; discriminate.
  - lia.
  - lia.
  - lia.
  - apply (H Toy.fresh); reflexivity.
Defined.

(** ** The iteration count at its largest (line 163) *)

(** X6.  With [c = UINT_MAX] the test [u <= c] cannot fail, so whatever
    the collaborators do the function never returns [PKCS5_OK] and never
    copies a byte: at every point of the execution [DK] is what it was, and
    the only way out is an error. *)
Theorem max_iteration_count_never_ok (E : externals) fuel w U0 T0 m PRF c dkLen :
  2 ^ 32 - 1 <= c -> 0 <= dkLen < 2 ^ 32 ->
  match _gnutls_pkcs5_pbkdf2 E fuel w U0 T0 m PRF c dkLen with
  | Returned res => rc res <> PKCS5_OK /\ written res = [] /\ mem res = m
  | OutOfFuel m' log' => m' = m /\ log' = []
  end.
Proof.
  intros Hc Hd. unfold _gnutls_pkcs5_pbkdf2.
  set (hLen := uint (gcry_md_get_algo_dlen E PRF)).
  pose proof (uint_range (gcry_md_get_algo_dlen E PRF)) as Hr. fold hLen in Hr.
  destruct (Z.eqb_spec hLen 0); [repeat split; discriminate|].
  destruct (hLen >? MAX_PRF_BLOCK_LEN); [repeat split; discriminate|].
  simpl orb. cbv iota.
  destruct (c =? 0); [repeat split; discriminate|].
  destruct (Z.eqb_spec dkLen 0); [repeat split; discriminate|].
  destruct (dkLen >? 4294967295); [repeat split; discriminate|].
  destruct (gcry_md_open E w PRF) as [w1 err].
  destruct (negb (err =? 0)); [repeat split; discriminate|].
  pose proof (block_count_spec dkLen hLen ltac:(lia) ltac:(lia)) as [H1 H2].
  destruct fuel as [|fuel]; [split; reflexivity|].
  cbn [loop_i]. rewrite (uint_small 1) by lia.
  destruct (Z.leb_spec 1 (block_count dkLen hLen)); [|lia].
  destruct (loop_u E PRF (mem_P m) (mem_S m) c hLen (Datatypes.S fuel) 1 1 _)
    as [st'|w'|] eqn:Hu.
  - exfalso. revert Hu. apply loop_u_wraps; lia.
  - repeat split. discriminate.
  - split; reflexivity.
Qed.

Lemma max_iteration_count_never_ok_witness :
  match _gnutls_pkcs5_pbkdf2 (Toy.ext 3 0 true 5 0) 9 Toy.fresh [] []
          (Toy.caller [1; 2] [3; 4] 8) 0 4294967295 7 with
  | Returned res =>
    rc res <> PKCS5_OK /\ written res = [] /\ mem res = Toy.caller [1; 2] [3; 4] 8
  | OutOfFuel m' log' => m' = Toy.caller [1; 2] [3; 4] 8 /\ log' = []
  end.
Proof.
  apply (max_iteration_count_never_ok (Toy.ext 3 0 true 5 0) 9 Toy.fresh [] []
           (Toy.caller [1; 2] [3; 4] 8) 0 4294967295 7); lia.
Defined.

(** ** What the key depends on (lines 159-205) *)

(** X7.  The key does not depend on what the output buffer held, nor on
    how long the buffer is: two calls for the same password, salt,
    iteration count and [dkLen], with the same collaborators, that return
    [PKCS5_OK] leave the same first [dkLen] bytes in [DK], whatever either
    buffer held before. *)
Theorem key_ignores_old_buffer (E : externals) fuel1 fuel2 w U1 T1 U2 T2 m1 m2
    PRF c dkLen res1 res2 :
  mem_P m1 = mem_P m2 -> mem_S m1 = mem_S m2 ->
  0 <= c < 2 ^ 32 -> 0 <= dkLen < 2 ^ 32 ->
  _gnutls_pkcs5_pbkdf2 E fuel1 w U1 T1 m1 PRF c dkLen = Returned res1 ->
  rc res1 = PKCS5_OK ->
  _gnutls_pkcs5_pbkdf2 E fuel2 w U2 T2 m2 PRF c dkLen = Returned res2 ->
  rc res2 = PKCS5_OK ->
  take (Z.to_nat dkLen) (mem_DK (mem res1))
  = take (Z.to_nat dkLen) (mem_DK (mem res2)) /\
  length (take (Z.to_nat dkLen) (mem_DK (mem res1))) = Z.to_nat dkLen.
Proof.
  intros HP HS Hc Hd H1 Hok1 H2 Hok2.
  pose proof (pbkdf2_agree E fuel1 fuel1 w U1 T1 U2 T2 m1 PRF c dkLen res1
                Hd ltac:(lia) H1) as H1'.
  destruct (returned_ok_blocks E fuel1 w U2 T2 m1 PRF c dkLen res1
              Hc Hd H1' Hok1)
    as (Hh & _ & Hd' & w1 & Ts1 & Hopen1 & HTs1 & _ & Hmem1).
  destruct (returned_ok_blocks E fuel2 w U2 T2 m2 PRF c dkLen res2
              Hc Hd H2 Hok2)
    as (_ & _ & _ & w2 & Ts2 & Hopen2 & HTs2 & _ & Hmem2).
  set (hLen := uint (gcry_md_get_algo_dlen E PRF)) in *.
  set (l := block_count dkLen hLen) in *.
  rewrite Hopen1 in Hopen2. inversion Hopen2; subst w2.
  rewrite HP, HS in HTs1. rewrite HTs1 in HTs2. inversion HTs2; subst Ts2.
  pose proof (block_count_spec dkLen hLen ltac:(lia) ltac:(lia)) as [A1 A2].
  fold l in A1, A2.
  destruct (block_values_shape _ _ _ _ _ _ _ _ _ _ HTs1) as [Hlen1 Hall1].
  pose proof (length_concat_blocks _ _ Hall1) as Hcat1.
  rewrite Hmem1, Hmem2.
  rewrite !take_app_le by (rewrite length_take; nia).
  split; [reflexivity|].
  rewrite !length_take. nia.
Qed.

Lemma key_ignores_old_buffer_witness :
  take 7 [79; 93; 83; 173; 187; 165; 131; 0]
  = take 7 [79; 93; 83; 173; 187; 165; 131; 9; 9] /\
  length (take 7 [79; 93; 83; 173; 187; 165; 131; 0]) = 7%nat.
Proof.
  apply (key_ignores_old_buffer (Toy.good 3) 9 5 Toy.fresh [] [] [4] [5; 5]
           (Toy.caller [1; 2] [3; 4] 8)
           {| mem_P := [1; 2]; mem_S := [3; 4];
              mem_DK := [9; 9; 9; 9; 9; 9; 9; 9; 9] |} 0 2 7
           (Build_result (Toy.good 3) PKCS5_OK md_closed
              {| Toy.key := [1; 2]; Toy.text := [39; 46; 53];
                 Toy.keyings := 6; Toy.closed := true |}
              {| mem_P := [1; 2]; mem_S := [3; 4];
                 mem_DK := [79; 93; 83; 173; 187; 165; 131; 0] |}
              [(0, 3); (3, 3); (6, 1)])
           (Build_result (Toy.good 3) PKCS5_OK md_closed
              {| Toy.key := [1; 2]; Toy.text := [39; 46; 53];
                 Toy.keyings := 6; Toy.closed := true |}
              {| mem_P := [1; 2]; mem_S := [3; 4];
                 mem_DK := [79; 93; 83; 173; 187; 165; 131; 9; 9] |}
              [(0, 3); (3, 3); (6, 1)])).
  - reflexivity.
  - reflexivity.
  - lia.
  - lia.
  - vm_compute. reflexivity.
  - reflexivity.
  - vm_compute. reflexivity.
  - reflexivity.
Defined.

(** ** The number of keyings (lines 163-167) *)

Section Keyings.

Variable E : externals.
Variables (PRF : Z) (P S : list Z) (c hLen l r : Z).

Lemma iteration_counts i u (st st' : regs (counted E)) :
  iteration (counted E) PRF P S hLen i u st = inl st' ->
  snd (r_world st') = Datatypes.S (snd (r_world st)).
Proof.
  unfold iteration. simpl.
  destruct (gcry_md_setkey E _ P) as [w1 rc1].
  destruct (negb (rc1 =? 0)); [discriminate|].
  destruct (u =? 1).
  - simpl. destruct (gnutls_alloca E w1 _); [|discriminate].
    simpl. destruct (gcry_md_read E _ PRF) as [w2 [p|]]; [|discriminate].
    intros H. inversion H. reflexivity.
  - simpl. destruct (gcry_md_read E _ PRF) as [w2 [p|]]; [|discriminate].
    intros H. inversion H. reflexivity.
Qed.

Lemma iterate_counts n : forall i u (st st' : regs (counted E)),
  iterate (counted E) PRF P S hLen n i u st = inl st' ->
  snd (r_world st') = (snd (r_world st) + n)%nat.
Proof.
  induction n as [|n IH]; intros i u st st' H; simpl in H.
  - inversion H. lia.
  - destruct (iteration (counted E) PRF P S hLen i u st) as [st1|w1] eqn:Hit;
      [|discriminate].
    apply iteration_counts in Hit. apply IH in H. lia.
Qed.

Lemma blocks_counts n : forall i (st : regs (counted E)) m log,
  rc (blocks (counted E) PRF P S c hLen l r n i st m log) = PKCS5_OK ->
  snd (final_world (blocks (counted E) PRF P S c hLen l r n i st m log))
  = (snd (r_world st) + n * Z.to_nat c)%nat.
Proof.
  induction n as [|n IH]; intros i st m log H; simpl in *.
  - lia.
  - unfold block in *.
    destruct (iterate (counted E) PRF P S hLen (Z.to_nat c) i 1 _) as [st1|w1] eqn:Hit;
      [|discriminate].
    apply iterate_counts in Hit. simpl in Hit.
    rewrite (IH _ _ _ _ H). lia.
Qed.

End Keyings.

(** X8.  A call that returns [PKCS5_OK] has keyed the context exactly
    [l * c] times, [c] times for each of the [l] blocks, whatever the
    collaborators are. *)
Theorem keyings_on_success (E : externals) fuel w k0 U0 T0 m PRF c dkLen res :
  0 <= c < 2 ^ 32 -> 0 <= dkLen < 2 ^ 32 ->
  _gnutls_pkcs5_pbkdf2 (counted E) fuel (w, k0) U0 T0 m PRF c dkLen = Returned res ->
  rc res = PKCS5_OK ->
  Z.of_nat (snd (final_world res))
  = Z.of_nat k0 + block_count dkLen (uint (gcry_md_get_algo_dlen E PRF)) * c.
Proof.
  intros Hc Hd H Hok.
  destruct (pbkdf2_ok_inv (counted E) fuel (w, k0) U0 T0 m PRF c dkLen res
              Hc Hd H Hok) as (Hh & Hc' & Hd' & Hl & w1 & Hopen).
  apply pbkdf2_returned in H; [|lia|lia|exact Hl].
  change (gcry_md_get_algo_dlen (counted E) PRF)
    with (gcry_md_get_algo_dlen E PRF) in *.
  set (hLen := uint (gcry_md_get_algo_dlen E PRF)) in *.
  subst res. unfold run in *.
  change (gcry_md_get_algo_dlen (counted E) PRF)
    with (gcry_md_get_algo_dlen E PRF) in *.
  fold hLen in Hok |- *.
  pose proof (block_count_spec dkLen hLen ltac:(lia) ltac:(lia)) as [H1 H2].
  destruct (Z.eqb_spec hLen 0); [lia|].
  destruct (Z.gtb_spec hLen MAX_PRF_BLOCK_LEN); [lia|].
  simpl orb in *. cbv iota in *.
  destruct (Z.eqb_spec c 0); [lia|].
  destruct (Z.eqb_spec dkLen 0); [lia|].
  destruct (Z.gtb_spec dkLen 4294967295); [lia|].
  assert (Hk : snd w1 = k0).
  { simpl in Hopen. destruct (gcry_md_open E w PRF) as [w' err].
    inversion Hopen. reflexivity. }
  rewrite Hopen in *. simpl negb in *. cbv iota in *.
  rewrite (blocks_counts E PRF (mem_P m) (mem_S m) c hLen _ _ _ _ _ _ _ Hok).
  simpl r_world. rewrite Hk. nia.
Qed.

Lemma keyings_on_success_witness :
  Z.of_nat 6 = Z.of_nat 0 + block_count 7 (uint 3) * 2.
Proof.
  apply (keyings_on_success (Toy.good 3) 9 Toy.fresh 0%nat [] []
           (Toy.caller [1; 2] [3; 4] 8) 0 2 7
           (Build_result (counted (Toy.good 3)) PKCS5_OK md_closed
              ({| Toy.key := [1; 2]; Toy.text := [39; 46; 53];
                  Toy.keyings := 6; Toy.closed := true |}, 6%nat)
              {| mem_P := [1; 2]; mem_S := [3; 4];
                 mem_DK := [79; 93; 83; 173; 187; 165; 131; 0] |}
              [(0, 3); (3, 3); (6, 1)])).
  - lia.
  - lia.
  - vm_compute. reflexivity.
  - reflexivity.
Defined.

(** ** Short keys and whole blocks (lines 108-111) *)

(** X9.  A key no longer than one digest takes one block, cut to [dkLen]
    bytes; a key of a whole number of digests takes [dkLen / hLen] blocks
    and the last one is not cut; in every case fewer than [hLen] bytes of
    the last block are computed and dropped. *)
Theorem block_count_edges dkLen hLen :
  1 <= hLen -> 1 <= dkLen < 2 ^ 32 ->
  let l := block_count dkLen hLen in
  let r := last_len dkLen hLen l in
  (dkLen <= hLen -> l = 1 /\ r = dkLen) /\
  (dkLen mod hLen = 0 -> l = dkLen / hLen /\ r = hLen) /\
  0 <= l * hLen - dkLen < hLen /\ l * hLen - dkLen = hLen - r.
Proof.
  intros Hh Hd l r.
  pose proof (block_count_spec dkLen hLen Hh Hd) as [H1 H2]. fold l in H1, H2.
  pose proof (last_len_spec dkLen hLen Hh Hd) as [H3 H4].
  fold l in H3, H4. fold r in H3, H4.
  split; [|split].
  - intros Hle. assert (l = 1) by nia. subst l. split; [assumption|]. lia.
  - intros Hmod.
    assert (Hl : l = dkLen / hLen).
    { unfold l, block_count. rewrite Hmod. reflexivity. }
    split; [exact Hl|].
    pose proof (Z.div_mod dkLen hLen ltac:(lia)) as Hdm.
    rewrite Hmod in Hdm. rewrite <- Hl in Hdm. nia.
  - nia.
Qed.

Lemma block_count_edges_witness :
  (20 <= 20 -> block_count 20 20 = 1 /\ last_len 20 20 (block_count 20 20) = 20) /\
  (20 mod 20 = 0 ->
   block_count 20 20 = 20 / 20 /\ last_len 20 20 (block_count 20 20) = 20) /\
  0 <= block_count 20 20 * 20 - 20 < 20 /\
  block_count 20 20 * 20 - 20 = 20 - last_len 20 20 (block_count 20 20).
Proof. apply (block_count_edges 20 20); lia. Defined.

(** ** One iteration (lines 171-188) *)

Lemma xor_zero_bytes (u : list Z) :
  xor_bytes (replicate (length u) 0) u = u.
Proof.
  unfold xor_bytes. induction u as [|b u IH]; simpl; [reflexivity|].
  rewrite IH. reflexivity.
Qed.

(** X10.  With an iteration count of 1 and collaborators that compute a
    pseudorandom function [prf] without failing, the key is the first
    [dkLen] bytes of [prf (P, S || INT (1)) || prf (P, S || INT (2)) || ...]:
    no exclusive or is left in it. *)
Theorem single_iteration_key (E : externals) PRF prf fuel w U0 T0 m dkLen :
  let hLen := uint (gcry_md_get_algo_dlen E PRF) in
  let l := block_count dkLen hLen in
  hmac_ok E PRF prf w ->
  1 <= hLen <= MAX_PRF_BLOCK_LEN -> 1 <= dkLen < 2 ^ 32 -> l < 2 ^ 32 - 1 ->
  (1 < fuel)%nat -> (Z.to_nat l < fuel)%nat ->
  exists res,
    _gnutls_pkcs5_pbkdf2 E fuel w U0 T0 m PRF 1 dkLen = Returned res /\
    rc res = PKCS5_OK /\
    mem_DK (mem res)
    = take (Z.to_nat dkLen)
        (concat (map (fun i => prf (mem_P m) (mem_S m ++ INT32_BE i)) (seqZ 1 l)))
      ++ drop (Z.to_nat dkLen) (mem_DK m).
Proof.
  intros hLen l Hok Hh Hd Hl Hf1 Hfl.
  exists (run E w U0 T0 m PRF 1 dkLen).
  split; [apply pbkdf2_run; subst l hLen; lia|].
  destruct (run_hmac E PRF prf w Hok U0 T0 m 1 dkLen Hh ltac:(lia) Hd)
    as (Hrc & _ & _ & _ & _ & Hmem).
  split; [exact Hrc|]. rewrite Hmem. f_equal.
  unfold PBKDF2. rewrite <- (block_count_ceil dkLen) by lia.
  fold hLen. fold l. do 2 f_equal.
  apply map_ext. intros i. unfold F. simpl.
  destruct Hok as (idle & keyed & Hprf).
  pose proof (prf_len _ _ _ _ _ _ Hprf (mem_P m) (mem_S m ++ INT32_BE i)) as Hlen.
  fold hLen in Hlen.
  replace (Z.to_nat hLen) with (length (prf (mem_P m) (mem_S m ++ INT32_BE i)))
    by lia.
  apply xor_zero_bytes.
Qed.

Lemma single_iteration_key_witness :
  exists res,
    _gnutls_pkcs5_pbkdf2 (Toy.good 3) 9 Toy.fresh [] [] (Toy.caller [1; 2] [3; 4] 8)
      0 1 7 = Returned res /\
    rc res = PKCS5_OK /\
    mem_DK (mem res)
    = take 7 (concat (map (fun i => Toy.checksum 3 [1; 2] ([3; 4] ++ INT32_BE i))
                          (seqZ 1 3)))
      ++ [0].
Proof.
  apply (single_iteration_key (Toy.good 3) 0 (Toy.checksum 3) 9 Toy.fresh [] []
           (Toy.caller [1; 2] [3; 4] 8) 7).
  - apply toy_hmac_ok. lia.
  - vm_compute. split; discriminate.
  - lia.
  - vm_compute. reflexivity.
  - lia.
  - vm_compute. lia.
Defined.

(** ** The buffer after a failure (lines 169-204) *)

Section FailedRounds.

Variable E : externals.
Variables (PRF : Z) (P S : list Z) (c hLen l r : Z).

Lemma blocks_fail_mem n : forall i st pre rest mP mS log,
  1 <= hLen -> 1 <= i -> i + Z.of_nat n = l + 1 ->
  Z.of_nat (length pre) = (i - 1) * hLen ->
  let res := blocks E PRF P S c hLen l r n i st
               {| mem_P := mP; mem_S := mS; mem_DK := pre ++ rest |} log in
  rc res <> PKCS5_OK ->
  exists (k : nat) Ts, (k < n)%nat /\
    block_values E PRF P S c hLen k i st = Some Ts /\
    mem_DK (mem res) = pre ++ concat Ts ++ drop (k * Z.to_nat hLen) rest /\
    written res = log ++ copies hLen l r k i.
Proof.
  induction n as [|n IH]; intros i st pre rest mP mS log Hh Hi Hn Hpre; simpl.
  - intros H. contradiction.
  - destruct (block E PRF P S c hLen i st) as [st'|w'] eqn:Hblock; simpl.
    + intros Hrc.
      destruct n as [|n]; [simpl in Hrc; contradiction|].
      assert (Hbl : block_len hLen l r i = hLen).
      { unfold block_len. destruct (Z.eqb_spec i l); [lia|reflexivity]. }
      rewrite Hbl in *.
      assert (Hst :
        store_DK {| mem_P := mP; mem_S := mS; mem_DK := pre ++ rest |}
          (Z.to_nat ((i - 1) * hLen)) (r_T st') (Z.to_nat hLen)
        = {| mem_P := mP; mem_S := mS;
             mem_DK := (pre ++ bytes_at (r_T st') (Z.to_nat hLen))
                       ++ drop (Z.to_nat hLen) rest |}).
      { unfold store_DK. simpl. f_equal.
        replace (Z.to_nat ((i - 1) * hLen)) with (length pre) by lia.
        rewrite memcpy_after, app_assoc. reflexivity. }
      rewrite Hst in *.
      destruct (IH (i + 1) st' (pre ++ bytes_at (r_T st') (Z.to_nat hLen))
                  (drop (Z.to_nat hLen) rest) mP mS
                  (log ++ [((i - 1) * hLen, hLen)]) Hh ltac:(lia) ltac:(lia))
        as (k & Ts & Hk & HTs & Hmem & Hw).
      { rewrite length_app, length_bytes_at. lia. }
      { exact Hrc. }
      exists (Datatypes.S k), (bytes_at (r_T st') (Z.to_nat hLen) :: Ts).
      split; [lia|]. split.
      { simpl. rewrite Hblock, HTs. reflexivity. }
      split.
      { rewrite Hmem. simpl concat. rewrite <- !app_assoc. do 3 f_equal.
        rewrite drop_drop. f_equal; lia. }
      { rewrite Hw. simpl copies. rewrite Hbl, <- app_assoc. reflexivity. }
    + intros _. exists 0%nat, []. split; [lia|]. split; [reflexivity|].
      simpl. rewrite app_nil_r. split; reflexivity.
Qed.

End FailedRounds.

(** X11.  When a call with the iteration count and the block count at
    most [2^32 - 2] returns an error, [DK] holds the finished blocks and,
    behind them, what it held before: for some [k] that is 0 or less than
    [l], its first [k * hLen] bytes are the accumulators of rounds
    [1 .. k] and all its other bytes are untouched. *)
Theorem failed_call_leaves_finished_blocks (E : externals) fuel w U0 T0 m PRF
    c dkLen res :
  let hLen := uint (gcry_md_get_algo_dlen E PRF) in
  let l := block_count dkLen hLen in
  0 <= c < 2 ^ 32 - 1 -> 0 <= dkLen < 2 ^ 32 -> l < 2 ^ 32 - 1 ->
  _gnutls_pkcs5_pbkdf2 E fuel w U0 T0 m PRF c dkLen = Returned res ->
  rc res <> PKCS5_OK ->
  exists (k : nat) Ts,
    (k = 0%nat \/ Z.of_nat k < l) /\
    block_values E PRF (mem_P m) (mem_S m) c hLen k 1
      {| r_world := fst (gcry_md_open E w PRF); r_U := U0; r_T := T0 |} = Some Ts /\
    length (concat Ts) = (k * Z.to_nat hLen)%nat /\
    mem_DK (mem res) = concat Ts ++ drop (k * Z.to_nat hLen) (mem_DK m).
Proof.
  intros hLen l Hc Hd Hl H Hrc.
  apply pbkdf2_returned in H; [|exact Hc|exact Hd|exact Hl].
  subst res. unfold run in *. fold hLen in Hrc |- *. fold l in Hrc |- *.
  pose proof (uint_range (gcry_md_get_algo_dlen E PRF)) as Hr. fold hLen in Hr.
  assert (Hnone : exists (k : nat) Ts,
    (k = 0%nat \/ Z.of_nat k < l) /\
    block_values E PRF (mem_P m) (mem_S m) c hLen k 1
      {| r_world := fst (gcry_md_open E w PRF); r_U := U0; r_T := T0 |} = Some Ts /\
    length (concat Ts) = (k * Z.to_nat hLen)%nat /\
    mem_DK m = concat Ts ++ drop (k * Z.to_nat hLen) (mem_DK m)).
  { exists 0%nat, []. repeat split. left. reflexivity. }
  destruct (Z.eqb_spec hLen 0); [exact Hnone|].
  destruct (Z.gtb_spec hLen MAX_PRF_BLOCK_LEN); [exact Hnone|].
  simpl orb in *. cbv iota in *.
  destruct (Z.eqb_spec c 0); [exact Hnone|].
  destruct (Z.eqb_spec dkLen 0); [exact Hnone|].
  destruct (Z.gtb_spec dkLen 4294967295); [exact Hnone|].
  clear Hnone.
  destruct (gcry_md_open E w PRF) as [w1 err]. simpl fst.
  destruct (negb (err =? 0)).
  { exists 0%nat, []. repeat split. left. reflexivity. }
  pose proof (block_count_spec dkLen hLen ltac:(lia) ltac:(lia)) as [H1 H2].
  fold l in H1, H2.
  destruct m as [mP mS mDK]. simpl mem_P in *. simpl mem_S in *. simpl mem_DK.
  destruct (blocks_fail_mem E PRF mP mS c hLen l
              (last_len dkLen hLen l) (Z.to_nat l) 1
              {| r_world := w1; r_U := U0; r_T := T0 |} [] mDK mP mS []
              ltac:(lia) ltac:(lia) ltac:(lia) ltac:(simpl; lia) Hrc)
    as (k & Ts & Hk & HTs & Hmem & _).
  exists k, Ts. split; [right; lia|]. split; [exact HTs|].
  destruct (block_values_shape _ _ _ _ _ _ _ _ _ _ HTs) as [Hlen Hall].
  split; [rewrite (length_concat_blocks _ _ Hall), Hlen; reflexivity|].
  exact Hmem.
Qed.

Lemma failed_call_leaves_finished_blocks_witness :
  exists (k : nat) Ts,
    (k = 0%nat \/ Z.of_nat k < block_count 7 (uint 3)) /\
    block_values (Toy.ext 3 0 true 3 0) 0 [1; 2] [3; 4] 2 (uint 3) k 1
      (Build_regs (Toy.ext 3 0 true 3 0) Toy.fresh [] []) = Some Ts /\
    length (concat Ts) = (k * Z.to_nat (uint 3))%nat /\
    [79; 93; 83; 0; 0; 0; 0; 0]
    = concat Ts ++ drop (k * Z.to_nat (uint 3)) [0; 0; 0; 0; 0; 0; 0; 0].
Proof.
  apply (failed_call_leaves_finished_blocks (Toy.ext 3 0 true 3 0) 9 Toy.fresh
           [] [] (Toy.caller [1; 2] [3; 4] 8) 0 2 7
           (Build_result (Toy.ext 3 0 true 3 0) PKCS5_INVALID_PRF md_open
              {| Toy.key := [1; 2]; Toy.text := []; Toy.keyings := 3;
                 Toy.closed := false |}
              {| mem_P := [1; 2]; mem_S := [3; 4];
                 mem_DK := [79; 93; 83; 0; 0; 0; 0; 0] |}
              [(0, 3)])).
  - lia.
  - lia.
  - vm_compute. reflexivity.
  - vm_compute. reflexivity.
  - discriminate.
Defined.
